(** * app.py: connection lifecycle and request handlers

    A shallow embedding of [src/app.py].  The two client libraries
    (redis-py, psycopg2), [time.sleep] and the logger are the program's
    environment: they are modelled by a [world] that holds the contents of
    the key-value store, a schedule of the errors the next calls to each
    server will raise, and the trace of the calls the program made.  The
    program itself is written in a state-and-exception monad over that
    world, one definition per function of the source. *)

From Stdlib Require Import ZArith String List Lia.
From stdpp Require Import base option list gmap strings pretty.

Set Warnings "-register-all".
Open Scope Z_scope.
Open Scope string_scope.

(** ** Python values and exceptions *)

(** The values the handlers return: strings, integers and dict literals
    (an association list, in the order the literal is written). *)
Inductive pyval : Type :=
| PyStr (s : string)
| PyInt (z : Z)
| PyDict (items : list (string * pyval)).

(** The exception classes the program names, and one constructor for every
    other class.  [ConnectionError] is redis-py's subclass of [RedisError];
    [RedisError] stands for every other [RedisError]. *)
Inductive exn : Type :=
| ConnectionError (msg : string)
| RedisError (msg : string)
| OperationalError (msg : string)
| HTTPException (status_code : Z) (detail : string)
| Exception (class_name msg : string).

(** [str(e)] *)
Definition str (e : exn) : string :=
  match e with
  | ConnectionError m | RedisError m | OperationalError m => m
  | HTTPException _ d => d
  | Exception _ m => m
  end.

(** [except (ConnectionError, RedisError)] *)
Definition except_ConnectionError_RedisError (e : exn) : bool :=
  match e with
  | ConnectionError _ | RedisError _ => true
  | _ => false
  end.

(** [except OperationalError] *)
Definition except_OperationalError (e : exn) : bool :=
  match e with
  | OperationalError _ => true
  | _ => false
  end.

(** A bare [except:] *)
Definition except_any (e : exn) : bool := true.

(** ** The environment *)

Inductive level : Type := INFO | WARNING | ERROR.

(** What the program does to its environment, in order. *)
Inductive event : Type :=
| Ping
| Get (key : string)
| Set_ (key value : string)
| Connect (host : string) (port : Z) (user dbname : string)
| Execute (sql : string)
| Sleep (seconds : Z)
| Log (lvl : level) (msg : string).

(** [redis_faults] and [pg_faults] schedule the upcoming calls to each
    server: [Some e] makes the call raise [e], [None] (or an exhausted
    schedule) lets it through. *)
Record world : Type := mkWorld {
  redis_data : gmap string string;
  redis_faults : list (option exn);
  pg_faults : list (option exn);
  pg_version : string;
  trace : list event
}.

Definition emit (ev : event) (w : world) : world :=
  mkWorld (redis_data w) (redis_faults w) (pg_faults w) (pg_version w)
          (trace w ++ [ev]).

Definition with_redis (d : gmap string string) (fs : list (option exn))
    (w : world) : world :=
  mkWorld d fs (pg_faults w) (pg_version w) (trace w).

Definition with_pg_faults (fs : list (option exn)) (w : world) : world :=
  mkWorld (redis_data w) (redis_faults w) fs (pg_version w) (trace w).

(** ** The monad: state passing with exceptions *)

Inductive outcome (A : Type) : Type :=
| Return (a : A)
| Raise (e : exn).
Arguments Return {A} a.
Arguments Raise {A} e.

Definition M (S A : Type) : Type := S -> outcome A * S.

#[export] Instance M_ret {S} : MRet (M S) := fun A a s => (Return a, s).

#[export] Instance M_bind {S} : MBind (M S) := fun A B k m s =>
  match m s with
  | (Return a, s') => k a s'
  | (Raise e, s') => (Raise e, s')
  end.

Definition raise {S A} (e : exn) : M S A := fun s => (Raise e, s).

(** [try: body  except classes as e: handler e] *)
Definition try_except {S A} (body : M S A) (classes : exn -> bool)
    (handler : exn -> M S A) : M S A := fun s =>
  match body s with
  | (Raise e, s') => if classes e then handler e s' else (Raise e, s')
  | done => done
  end.

(** [for i in range(n): body i], where the body may [return] from the
    enclosing function ([Some v]) or fall through to the next iteration
    ([None]); a loop that runs out falls off the end of the function, which
    returns Python's [None]. *)
Fixpoint for_in {S A} (items : list nat) (body : nat -> M S (option (option A)))
    : M S (option A) :=
  match items with
  | [] => mret None
  | i :: rest =>
      x ← body i;
      match x with
      | Some v => mret v
      | None => for_in rest body
      end
  end.

Definition range (n : nat) : list nat := seq 0 n.

(** ** redis-py, psycopg2, time and logging *)

Record Redis : Type := mkRedis {
  host : string;
  port : Z;
  decode_responses : bool;
  socket_connect_timeout : Z;
  socket_timeout : Z
}.

Record connection : Type := mkConnection {
  conn_host : string;
  conn_port : Z;
  conn_user : string;
  conn_password : string;
  conn_dbname : string;
  connect_timeout : Z
}.

(** The error the next call to a server raises, if any. *)
Definition next_fault (fs : list (option exn)) : option exn :=
  match fs with
  | Some e :: _ => Some e
  | _ => None
  end.

(** One command sent to the store: recorded, then either the scheduled
    error or the reply computed from the store's contents. *)
Definition redis_command {A} (ev : event)
    (reply : gmap string string -> A * gmap string string) : M world A :=
  fun w =>
    let w1 := emit ev w in
    match next_fault (redis_faults w1) with
    | Some e => (Raise e, with_redis (redis_data w1) (tail (redis_faults w1)) w1)
    | None =>
        let '(a, d) := reply (redis_data w1) in
        (Return a, with_redis d (tail (redis_faults w1)) w1)
    end.

Definition redis_ping (c : Redis) : M world bool :=
  redis_command Ping (fun d => (true, d)).

Definition redis_get (c : Redis) (key : string) : M world (option string) :=
  redis_command (Get key) (fun d => (d !! key, d)).

Definition redis_set (c : Redis) (key value : string) : M world bool :=
  redis_command (Set_ key value) (fun d => (true, <[key := value]> d)).

(** One round-trip to the database server. *)
Definition pg_command {A} (ev : event) (reply : world -> A) : M world A :=
  fun w =>
    let w1 := emit ev w in
    match next_fault (pg_faults w1) with
    | Some e => (Raise e, with_pg_faults (tail (pg_faults w1)) w1)
    | None => (Return (reply w1), with_pg_faults (tail (pg_faults w1)) w1)
    end.

Definition psycopg2_connect (host : string) (port : Z)
    (user password dbname : string) (connect_timeout : Z) : M world connection :=
  pg_command (Connect host port user dbname)
    (fun _ => mkConnection host port user password dbname connect_timeout).

(** The rows the server answers with. *)
Definition pg_rows (w : world) (sql : string) : list (list pyval) :=
  if String.eqb sql "SELECT 1;" then [[PyInt 1]]
  else if String.eqb sql "SELECT version();" then [[PyStr (pg_version w)]]
  else [].

(** [with conn.cursor() as cursor: cursor.execute(sql)], taken as one step:
    the result set the cursor then holds.  The event records that the
    program reached the statement; the scheduled error stands for a failure
    of either call (psycopg2 raises from [cursor()] itself, before anything
    is sent, once the connection is closed). *)
Definition cursor_execute (conn : connection) (sql : string)
    : M world (list (list pyval)) :=
  pg_command (Execute sql) (fun w => pg_rows w sql).

(** [cursor.fetchone()] on a fresh result set. *)
Definition fetchone (rows : list (list pyval)) : option (list pyval) := head rows.

(** [result[0]] *)
Definition subscript0 {S} (result : option (list pyval)) : M S pyval :=
  match result with
  | None => raise (Exception "TypeError" "'NoneType' object is not subscriptable")
  | Some [] => raise (Exception "IndexError" "tuple index out of range")
  | Some (v :: _) => mret v
  end.

Definition time_sleep (seconds : Z) : M world unit :=
  fun w => (Return tt, emit (Sleep seconds) w).

Definition logger (lvl : level) (msg : string) : M world unit :=
  fun w => (Return tt, emit (Log lvl msg) w).

(** ** Module constants *)

(** The environment-derived settings, read once when the module loads. *)
Record config : Type := mkConfig {
  REDIS_HOST : string;
  REDIS_PORT : Z;
  POSTGRES_HOST : string;
  POSTGRES_PORT : Z;
  POSTGRES_DB : string;
  POSTGRES_USER : string;
  POSTGRES_PASSWORD : string
}.

(** The defaults of the [os.getenv] calls. *)
Definition default_config : config :=
  mkConfig "redis" 6379 "postgres" 5432 "db" "fnctech" "password1357".

(** ** Connection initialisation with retries *)

(** The body of the loop of [init_redis], for one value of [attempt]. *)
Definition init_redis_attempt (cfg : config) (max_retries : nat)
    (retry_delay : Z) (attempt : nat) : M world (option (option Redis)) :=
  try_except
    (let r := mkRedis (REDIS_HOST cfg) (REDIS_PORT cfg) true 5 5 in
     _ ← redis_ping r;
     _ ← logger INFO ("✅ Redis connected successfully to " +:+ REDIS_HOST cfg
                        +:+ ":" +:+ pretty (REDIS_PORT cfg));
     mret (Some (Some r)))
    except_ConnectionError_RedisError
    (fun e =>
       if (attempt <? max_retries - 1)%nat then
         _ ← logger WARNING ("Redis not ready (attempt " +:+ pretty (attempt + 1)%nat
                               +:+ "/" +:+ pretty max_retries +:+ "): " +:+ str e);
         _ ← time_sleep retry_delay;
         mret None
       else
         _ ← logger ERROR "❌ Failed to connect to Redis after maximum retries";
         mret (Some None)).

Definition init_redis (cfg : config) : M world (option Redis) :=
  let max_retries := 10%nat in
  let retry_delay := 2 in
  for_in (range max_retries) (init_redis_attempt cfg max_retries retry_delay).

(** The body of the loop of [init_postgres]. *)
Definition init_postgres_attempt (cfg : config) (max_retries : nat)
    (retry_delay : Z) (attempt : nat) : M world (option (option connection)) :=
  try_except
    (conn ← psycopg2_connect (POSTGRES_HOST cfg) (POSTGRES_PORT cfg)
              (POSTGRES_USER cfg) (POSTGRES_PASSWORD cfg) (POSTGRES_DB cfg) 5;
     _ ← cursor_execute conn "SELECT 1;";
     _ ← logger INFO ("✅ PostgreSQL connected successfully to " +:+ POSTGRES_HOST cfg
                        +:+ ":" +:+ pretty (POSTGRES_PORT cfg));
     mret (Some (Some conn)))
    except_OperationalError
    (fun e =>
       if (attempt <? max_retries - 1)%nat then
         _ ← logger WARNING ("PostgreSQL not ready (attempt " +:+ pretty (attempt + 1)%nat
                               +:+ "/" +:+ pretty max_retries +:+ "): " +:+ str e);
         _ ← time_sleep retry_delay;
         mret None
       else
         _ ← logger ERROR "❌ Failed to connect to PostgreSQL after maximum retries";
         mret (Some None)).

Definition init_postgres (cfg : config) : M world (option connection) :=
  let max_retries := 10%nat in
  let retry_delay := 2 in
  for_in (range max_retries) (init_postgres_attempt cfg max_retries retry_delay).

(** ** The process: module globals and the environment *)

(** [r] and [pg_conn] are the module globals the handlers read; [None] is
    Python's [None], the value a failed initialisation returns. *)
Record process : Type := mkProcess {
  conf : config;
  r : option Redis;
  pg_conn : option connection;
  env : world
}.

(** Run an environment action inside the process. *)
Definition lift {A} (m : M world A) : M process A := fun p =>
  let '(o, w) := m (env p) in
  (o, mkProcess (conf p) (r p) (pg_conn p) w).

(** Read a module global. *)
Definition global {A} (name : process -> A) : M process A :=
  fun p => (Return (name p), p).

(** Module-level code: [r = init_redis()] then [pg_conn = init_postgres()]. *)
Definition module_init (cfg : config) (w : world) : outcome process :=
  match init_redis cfg w with
  | (Raise e, _) => Raise e
  | (Return r0, w1) =>
      match init_postgres cfg w1 with
      | (Raise e, _) => Raise e
      | (Return pg0, w2) => Return (mkProcess cfg r0 pg0 w2)
      end
  end.

(** ** Request handlers *)

Definition cache_get (key : string) : M process pyval :=
  r ← global r;
  match r with
  | None => raise (HTTPException 503 "Redis service unavailable")
  | Some r =>
      try_except
        (val ← lift (redis_get r key);
         match val with
         | None => raise (HTTPException 404 ("Key '" +:+ key +:+ "' not found"))
         | Some val => mret (PyDict [("key", PyStr key); ("value", PyStr val)])
         end)
        except_ConnectionError_RedisError
        (fun e => raise (HTTPException 503 ("Redis error: " +:+ str e)))
  end.

Definition cache_set (key value : string) : M process pyval :=
  r ← global r;
  match r with
  | None => raise (HTTPException 503 "Redis service unavailable")
  | Some r =>
      try_except
        (_ ← lift (redis_set r key value);
         mret (PyDict [("status", PyStr "ok"); ("key", PyStr key);
                       ("value", PyStr value)]))
        except_ConnectionError_RedisError
        (fun e => raise (HTTPException 503 ("Redis error: " +:+ str e)))
  end.

Definition db_test : M process pyval :=
  pg_conn ← global pg_conn;
  match pg_conn with
  | None => raise (HTTPException 503 "PostgreSQL service unavailable")
  | Some pg_conn =>
      try_except
        (rows ← lift (cursor_execute pg_conn "SELECT version();");
         let result := fetchone rows in
         v ← subscript0 result;
         mret (PyDict [("postgres_version", v); ("status", PyStr "success")]))
        except_OperationalError
        (fun e => raise (HTTPException 503 ("PostgreSQL error: " +:+ str e)))
  end.

Definition health_check : M process pyval :=
  (* Check Redis *)
  r ← global r;
  redis_status ←
    match r with
    | Some r =>
        try_except
          (_ ← lift (redis_ping r); mret "healthy")
          except_any
          (fun _ => mret "unhealthy")
    | None => mret "unhealthy"
    end;
  (* Check PostgreSQL *)
  pg_conn ← global pg_conn;
  postgres_status ←
    match pg_conn with
    | Some pg_conn =>
        try_except
          (_ ← lift (cursor_execute pg_conn "SELECT 1;"); mret "healthy")
          except_any
          (fun _ => mret "unhealthy")
    | None => mret "unhealthy"
    end;
  REDIS_HOST ← global (fun p => REDIS_HOST (conf p));
  POSTGRES_HOST ← global (fun p => POSTGRES_HOST (conf p));
  mret (PyDict
    [("status", PyStr (if String.eqb redis_status "healthy"
                          && String.eqb postgres_status "healthy"
                       then "healthy" else "degraded"));
     ("redis", PyStr redis_status);
     ("postgresql", PyStr postgres_status);
     ("redis_host", PyStr REDIS_HOST);
     ("postgres_host", PyStr POSTGRES_HOST)]).

Definition root : M process pyval :=
  r ← global r;
  pg_conn ← global pg_conn;
  mret (PyDict
    [("message", PyStr "Hello from Bootcamp Day 3");
     ("services", PyDict
        [("redis", PyStr (match r with Some _ => "available"
                                     | None => "unavailable" end));
         ("postgresql", PyStr (match pg_conn with Some _ => "available"
                                          | None => "unavailable" end))]);
     ("endpoints", PyDict
        [("health_check", PyStr "/health");
         ("cache_get", PyStr "/cache/{key}");
         ("cache_set", PyStr "/cache/{key}/{value}");
         ("db_test", PyStr "/db")])]).

(** ** The server *)

Inductive request : Type :=
| GET_cache (key : string)
| POST_cache (key value : string)
| GET_db
| GET_health
| GET_root.

(** The route table of the [@app.get] / [@app.post] decorators. *)
Definition route (req : request) : M process pyval :=
  match req with
  | GET_cache key => cache_get key
  | POST_cache key value => cache_set key value
  | GET_db => db_test
  | GET_health => health_check
  | GET_root => root
  end.

(** The requests of a process lifetime, one after the other: each response
    is what the handler returned or raised, and the next request sees the
    process as the handler left it. *)
Fixpoint serve (reqs : list request) (p : process)
    : list (outcome pyval) * process :=
  match reqs with
  | [] => ([], p)
  | req :: rest =>
      let '(o, p1) := route req p in
      let '(os, p2) := serve rest p1 in
      (o :: os, p2)
  end.

(** The HTTP status the framework answers with. *)
Definition status_code_of (o : outcome pyval) : Z :=
  match o with
  | Return _ => 200
  | Raise (HTTPException status_code _) => status_code
  | Raise _ => 500
  end.

(** ** Reading traces *)

(** A connect-and-verify attempt starts with a ping (cache) or with a
    connect (database). *)
Definition is_attempt (ev : event) : bool :=
  match ev with
  | Ping | Connect _ _ _ _ => true
  | _ => false
  end.

Definition attempts (t : list event) : nat := length (filter is_attempt t).

Definition sleeps (t : list event) : list Z :=
  omap (fun ev => match ev with Sleep s => Some s | _ => None end) t.

(** The calls a trace makes to each dependency. *)
Definition is_redis_call (ev : event) : bool :=
  match ev with
  | Ping | Get _ | Set_ _ _ => true
  | _ => false
  end.

Definition is_pg_call (ev : event) : bool :=
  match ev with
  | Connect _ _ _ _ | Execute _ => true
  | _ => false
  end.

(** Dict lookup, [d[name]]. *)
Definition item (name : string) (v : pyval) : option pyval :=
  match v with
  | PyDict items => snd <$> List.find (fun kv => String.eqb (fst kv) name) items
  | _ => None
  end.

(** The keys a request history writes. *)
Definition written (reqs : list request) : list string :=
  omap (fun req => match req with POST_cache key _ => Some key | _ => None end) reqs.

(** ** Vocabulary of the properties *)

(** The process after one command to the store went through. *)
Definition redis_done (ev : event) (d : gmap string string) (p : process) : process :=
  mkProcess (conf p) (r p) (pg_conn p)
    (with_redis d (tail (redis_faults (env p))) (emit ev (env p))).

(** [quiet n fs]: none of the next [n] calls raises. *)
Fixpoint quiet (n : nat) (fs : list (option exn)) : bool :=
  match n with
  | O => true
  | S n' =>
      match next_fault fs with
      | None => quiet n' (tail fs)
      | Some _ => false
      end
  end.

(** The store after a request differs from the store before at most at the
    key a POST writes. *)
Definition same_store_but (req : request) (d d' : gmap string string) : Prop :=
  match req with
  | POST_cache key value => d' = d \/ d' = <[key := value]> d
  | _ => d' = d
  end.


(** ** Sample processes *)

Definition sample_redis : Redis := mkRedis "redis" 6379 true 5 5.

Definition sample_connection : connection :=
  mkConnection "postgres" 5432 "fnctech" "password1357" "db" 5.

(** Both servers up, the store empty, nothing scheduled to fail. *)
Definition calm_world : world :=
  mkWorld ∅ [] [] "PostgreSQL 16.2 on x86_64-pc-linux-gnu, 64-bit" [].

(** The process as a start-up against [calm_world] leaves it. *)
Definition sample_process : process :=
  mkProcess default_config (Some sample_redis) (Some sample_connection) calm_world.

(** The process when the cache never came up at start-up. *)
Definition cacheless_process : process :=
  mkProcess default_config None (Some sample_connection) calm_world.

(** The same process over a store holding [d] instead. *)
Definition with_store (d : gmap string string) (p : process) : process :=
  mkProcess (conf p) (r p) (pg_conn p)
    (with_redis d (redis_faults (env p)) (env p)).

(** A dependency answers its re-check: its handle is there and the next
    call to it raises nothing. *)
Definition redis_live (p : process) : bool :=
  match r p, next_fault (redis_faults (env p)) with
  | Some _, None => true
  | _, _ => false
  end.

Definition pg_live (p : process) : bool :=
  match pg_conn p, next_fault (pg_faults (env p)) with
  | Some _, None => true
  | _, _ => false
  end.

Definition status_word (live : bool) : string :=
  if live then "healthy" else "unhealthy".

(** The calls a health check makes: a ping if there is a cache handle, then
    a query if there is a database handle. *)
Definition health_calls (p : process) : list event :=
  (match r p with Some _ => [Ping] | None => [] end)
  ++ (match pg_conn p with Some _ => [Execute "SELECT 1;"] | None => [] end).

(** The world after a health check: each call made consumed one entry of
    its server's schedule. *)
Definition health_world (p : process) : world :=
  mkWorld (redis_data (env p))
    (match r p with Some _ => tail (redis_faults (env p)) | None => redis_faults (env p) end)
    (match pg_conn p with Some _ => tail (pg_faults (env p)) | None => pg_faults (env p) end)
    (pg_version (env p))
    (trace (env p) ++ health_calls p).

(** A process with the given handles over [calm_world]; used to exhibit the
    four combinations of sub-statuses. *)
Definition process_with (cache database : bool) : process :=
  mkProcess default_config
    (if cache then Some sample_redis else None)
    (if database then Some sample_connection else None)
    calm_world.

(** ** Vocabulary of the retry loops *)

(** The world once the store's schedule is down to [fs] and the events [t]
    have been added to the trace; likewise for the database. *)
Definition redis_world (fs : list (option exn)) (t : list event) (w : world) : world :=
  mkWorld (redis_data w) fs (pg_faults w) (pg_version w) (trace w ++ t).

Definition pg_world (fs : list (option exn)) (t : list event) (w : world) : world :=
  mkWorld (redis_data w) (redis_faults w) fs (pg_version w) (trace w ++ t).

(** The handles the two initialisations build. *)
Definition redis_client (cfg : config) : Redis :=
  mkRedis (REDIS_HOST cfg) (REDIS_PORT cfg) true 5 5.

Definition pg_connection (cfg : config) : connection :=
  mkConnection (POSTGRES_HOST cfg) (POSTGRES_PORT cfg) (POSTGRES_USER cfg)
    (POSTGRES_PASSWORD cfg) (POSTGRES_DB cfg) 5.

(** The log lines. *)
Definition redis_connected (cfg : config) : event :=
  Log INFO ("✅ Redis connected successfully to " +:+ REDIS_HOST cfg
              +:+ ":" +:+ pretty (REDIS_PORT cfg)).

Definition redis_not_ready (max_retries attempt : nat) (e : exn) : event :=
  Log WARNING ("Redis not ready (attempt " +:+ pretty (attempt + 1)%nat
                 +:+ "/" +:+ pretty max_retries +:+ "): " +:+ str e).

Definition redis_gave_up : event :=
  Log ERROR "❌ Failed to connect to Redis after maximum retries".

Definition pg_connected (cfg : config) : event :=
  Log INFO ("✅ PostgreSQL connected successfully to " +:+ POSTGRES_HOST cfg
              +:+ ":" +:+ pretty (POSTGRES_PORT cfg)).

Definition pg_not_ready (max_retries attempt : nat) (e : exn) : event :=
  Log WARNING ("PostgreSQL not ready (attempt " +:+ pretty (attempt + 1)%nat
                 +:+ "/" +:+ pretty max_retries +:+ "): " +:+ str e).

Definition pg_gave_up : event :=
  Log ERROR "❌ Failed to connect to PostgreSQL after maximum retries".

(** The trace of the failed cache attempts number [attempt], [attempt + 1],
    ... that raised the errors [es] and were retried: ping, warning, sleep. *)
Fixpoint redis_retries (max_retries : nat) (retry_delay : Z) (attempt : nat)
    (es : list exn) : list event :=
  match es with
  | [] => []
  | e :: es' =>
      [Ping; redis_not_ready max_retries attempt e; Sleep retry_delay]
      ++ redis_retries max_retries retry_delay (S attempt) es'
  end.

(** A database attempt fails at the connect or, once connected, at the
    trivial query. *)
Inductive pg_failure : Type :=
| connect_fails (e : exn)
| select_fails (e : exn).

Definition pg_error (f : pg_failure) : exn :=
  match f with connect_fails e | select_fails e => e end.

(** What the server's schedule holds for a failed attempt ... *)
Definition pg_failure_schedule (f : pg_failure) : list (option exn) :=
  match f with
  | connect_fails e => [Some e]
  | select_fails e => [None; Some e]
  end.

Definition pg_connect_call (cfg : config) : event :=
  Connect (POSTGRES_HOST cfg) (POSTGRES_PORT cfg) (POSTGRES_USER cfg) (POSTGRES_DB cfg).

(** ... and the calls the attempt makes before it fails. *)
Definition pg_failure_calls (cfg : config) (f : pg_failure) : list event :=
  match f with
  | connect_fails _ => [pg_connect_call cfg]
  | select_fails _ => [pg_connect_call cfg; Execute "SELECT 1;"]
  end.

Fixpoint pg_retries (cfg : config) (max_retries : nat) (retry_delay : Z)
    (attempt : nat) (fl : list pg_failure) : list event :=
  match fl with
  | [] => []
  | f :: fl' =>
      pg_failure_calls cfg f
      ++ [pg_not_ready max_retries attempt (pg_error f); Sleep retry_delay]
      ++ pg_retries cfg max_retries retry_delay (S attempt) fl'
  end.

(** What the [except] clause of an attempt does with the error [e] it
    caught, on the world [w] the failed call left. *)
Definition on_caught {H} (max_retries : nat) (retry_delay : Z) (attempt : nat)
    (not_ready gave_up : event) (w : world) : outcome (option (option H)) * world :=
  if (attempt <? max_retries - 1)%nat
  then (Return None, emit (Sleep retry_delay) (emit not_ready w))
  else (Return (Some None), emit gave_up w).

(** The server's schedule for the failed attempts [fl], one after the other. *)
Fixpoint pg_schedule (fl : list pg_failure) : list (option exn) :=
  match fl with
  | [] => []
  | f :: fl' => pg_failure_schedule f ++ pg_schedule fl'
  end.

(** ** Sample worlds for the initialisations *)

(** The cache refuses the first connection, rejects the second ping with an
    error that is not a connection error, then answers; the database refuses
    once, fails the trivial query once, then answers. *)
Definition flaky_world : world :=
  mkWorld ∅
    [Some (ConnectionError "Connection refused");
     Some (RedisError "invalid username-password pair");
     None]
    [Some (OperationalError "connection refused");
     None; Some (OperationalError "server closed the connection unexpectedly");
     None; None]
    "PostgreSQL 16.2 on x86_64-pc-linux-gnu, 64-bit" [].

(** Neither server ever comes up. *)
Definition down_world : world :=
  mkWorld ∅
    (replicate 10 (Some (ConnectionError "Connection refused")))
    (replicate 10 (Some (OperationalError "connection refused")))
    "" [].

(** The first attempt of each initialisation raises an error of a class its
    [except] clause does not name. *)
Definition odd_world : world :=
  mkWorld ∅
    [Some (Exception "ValueError" "invalid literal"); None]
    [Some (Exception "InterfaceError" "bad connection option"); None; None]
    "PostgreSQL 16.2 on x86_64-pc-linux-gnu, 64-bit" [].

(** ** Vocabulary of the further properties *)

(** The value the latest POST of a history wrote for [key], if any. *)
Fixpoint last_post (key : string) (reqs : list request) : option string :=
  match reqs with
  | [] => None
  | req :: rest =>
      match last_post key rest with
      | Some v => Some v
      | None =>
          match req with
          | POST_cache k v => if String.eqb k key then Some v else None
          | _ => None
          end
      end
  end.

(** A schedule on which no call raises. *)
Definition all_clear (fs : list (option exn)) : Prop :=
  Forall (fun f => f = None) fs.

(** A schedule whose errors are all of the classes [classes] names. *)
Definition only_raises (classes : exn -> bool) (fs : list (option exn)) : Prop :=
  Forall (fun f => match f with Some e => classes e = true | None => True end) fs.

Definition is_post (req : request) : bool :=
  match req with POST_cache _ _ => true | _ => false end.

Definition is_log (ev : event) : bool :=
  match ev with Log _ _ => true | _ => false end.

(** The same process with another database side: handle, schedule, version. *)
Definition with_database (pc : option connection) (fs : list (option exn))
    (version : string) (p : process) : process :=
  mkProcess (conf p) (r p) pc
    (mkWorld (redis_data (env p)) (redis_faults (env p)) fs version (trace (env p))).

(** The same process with another cache side: handle, contents, schedule. *)
Definition with_cache (c : option Redis) (d : gmap string string)
    (fs : list (option exn)) (p : process) : process :=
  mkProcess (conf p) c (pg_conn p)
    (mkWorld d fs (pg_faults (env p)) (pg_version (env p)) (trace (env p))).

(** The time a trace spends asleep. *)
Definition total_sleep (t : list event) : Z := foldr Z.add 0 (sleeps t).

(** * Properties *)

(** ** The cache handlers, step by step *)

Lemma cache_set_ok p c key value :
  r p = Some c ->
  next_fault (redis_faults (env p)) = None ->
  cache_set key value p =
    (Return (PyDict [("status", PyStr "ok"); ("key", PyStr key); ("value", PyStr value)]),
     redis_done (Set_ key value) (<[key := value]> (redis_data (env p))) p).
Proof.
  intros Hr Hq.
  unfold cache_set, global, mbind, M_bind, try_except, lift, redis_set, redis_command.
  rewrite Hr. simpl. rewrite Hq. reflexivity.
Qed.

Lemma cache_set_raises p c key value e :
  r p = Some c ->
  next_fault (redis_faults (env p)) = Some e ->
  cache_set key value p =
    (if except_ConnectionError_RedisError e
     then Raise (HTTPException 503 ("Redis error: " +:+ str e))
     else Raise e,
     redis_done (Set_ key value) (redis_data (env p)) p).
Proof.
  intros Hr Hq.
  unfold cache_set, global, mbind, M_bind, try_except, lift, redis_set, redis_command.
  rewrite Hr. simpl. rewrite Hq. simpl.
  destruct (except_ConnectionError_RedisError e); reflexivity.
Qed.

Lemma cache_get_replies p c key :
  r p = Some c ->
  next_fault (redis_faults (env p)) = None ->
  cache_get key p =
    (match redis_data (env p) !! key with
     | None => Raise (HTTPException 404 ("Key '" +:+ key +:+ "' not found"))
     | Some val => Return (PyDict [("key", PyStr key); ("value", PyStr val)])
     end,
     redis_done (Get key) (redis_data (env p)) p).
Proof.
  intros Hr Hq.
  unfold cache_get, global, mbind, M_bind, try_except, lift, redis_get, redis_command.
  rewrite Hr. simpl. rewrite Hq.
  destruct (redis_data (env p) !! key); reflexivity.
Qed.

Lemma cache_get_raises p c key e :
  r p = Some c ->
  next_fault (redis_faults (env p)) = Some e ->
  cache_get key p =
    (if except_ConnectionError_RedisError e
     then Raise (HTTPException 503 ("Redis error: " +:+ str e))
     else Raise e,
     redis_done (Get key) (redis_data (env p)) p).
Proof.
  intros Hr Hq.
  unfold cache_get, global, mbind, M_bind, try_except, lift, redis_get, redis_command.
  rewrite Hr. simpl. rewrite Hq. simpl.
  destruct (except_ConnectionError_RedisError e); reflexivity.
Qed.

Lemma cache_unavailable p key value :
  r p = None ->
  cache_get key p = (Raise (HTTPException 503 "Redis service unavailable"), p)
  /\ cache_set key value p = (Raise (HTTPException 503 "Redis service unavailable"), p).
Proof.
  intros Hr. unfold cache_get, cache_set, global, mbind, M_bind.
  rewrite Hr. split; reflexivity.
Qed.

Lemma quiet_S n fs :
  quiet (S n) fs = true <-> next_fault fs = None /\ quiet n (tail fs) = true.
Proof.
  simpl. destruct (next_fault fs); split; intros H; try tauto; try discriminate.
  destruct H; discriminate.
Qed.

(** ** What a handler leaves of the process *)

(** Unfold a handler down to the world and split on everything it tests. *)
Ltac run_handler :=
  unfold cache_get, cache_set, db_test, health_check, root, global, lift,
    try_except, redis_get, redis_set, redis_ping, redis_command,
    cursor_execute, pg_command, subscript0, fetchone, raise,
    mbind, M_bind, mret, M_ret;
  simpl;
  repeat match goal with
         | |- context [match ?x with _ => _ end] =>
             match type of x with
             | option _ => destruct x eqn:?
             | bool => destruct x eqn:?
             | list _ => destruct x eqn:?
             end; simpl
         end.

Lemma route_frame req p :
  let p' := snd (route req p) in
  conf p' = conf p /\ r p' = r p /\ pg_conn p' = pg_conn p
  /\ same_store_but req (redis_data (env p)) (redis_data (env p'))
  /\ pg_version (env p') = pg_version (env p).
Proof.
  destruct req; unfold route; run_handler; auto 10.
Qed.

Lemma serve_cons req reqs p :
  serve (req :: reqs) p =
    (fst (route req p) :: fst (serve reqs (snd (route req p))),
     snd (serve reqs (snd (route req p)))).
Proof.
  simpl. destruct (route req p) as [o p1]. simpl.
  destruct (serve reqs p1) as [os p2]. reflexivity.
Qed.

Lemma serve_globals reqs : forall p,
  conf (snd (serve reqs p)) = conf p
  /\ r (snd (serve reqs p)) = r p
  /\ pg_conn (snd (serve reqs p)) = pg_conn p.
Proof.
  induction reqs as [|req reqs IH]; intros p; [easy|].
  rewrite serve_cons. simpl.
  destruct (IH (snd (route req p))) as (Hc & Hr & Hpg).
  destruct (route_frame req p) as (Hc' & Hr' & Hpg' & _).
  rewrite Hc, Hr, Hpg. auto.
Qed.

(** A key the store holds was there from the start or has been written. *)
Lemma serve_written reqs : forall p key,
  redis_data (env (snd (serve reqs p))) !! key <> None ->
  redis_data (env p) !! key <> None \/ In key (written reqs).
Proof.
  induction reqs as [|req reqs IH]; intros p key Hk; [left; exact Hk|].
  rewrite serve_cons in Hk. simpl in Hk.
  destruct (IH _ _ Hk) as [Hin|Hin].
  - destruct (route_frame req p) as (_ & _ & _ & Hst & _).
    destruct req; unfold same_store_but in Hst;
      try (left; rewrite Hst in Hin; exact Hin).
    destruct Hst as [Hst|Hst]; rewrite Hst in Hin; [left; exact Hin|].
    destruct (decide (key0 = key)) as [->|Hne].
    + right. simpl. auto.
    + left. rewrite lookup_insert_ne in Hin by exact Hne. exact Hin.
  - right. destruct req; simpl; auto.
Qed.

(** ** Set, then get *)



(** ** The cache handle is the sentinel *)

(** C3. When start-up left [r] at [None], a get and a set of any key and
    value both raise the 503 "service unavailable" error: neither answers
    404, neither returns a value, and the store is not called. *)
Theorem cache_unavailable_503 (p : process) (key value : string) :
  r p = None ->
  cache_get key p = (Raise (HTTPException 503 "Redis service unavailable"), p)
  /\ cache_set key value p = (Raise (HTTPException 503 "Redis service unavailable"), p)
  /\ status_code_of (fst (cache_get key p)) = 503
  /\ status_code_of (fst (cache_set key value p)) = 503
  /\ status_code_of (fst (cache_get key p)) <> 404
  /\ status_code_of (fst (cache_set key value p)) <> 404
  /\ (forall v, fst (cache_get key p) <> Return v)
  /\ (forall v, fst (cache_set key value p) <> Return v).
Proof.
  intros Hr. destruct (cache_unavailable p key value Hr) as [Hg Hs].
  rewrite Hg, Hs. simpl. repeat split; try easy.
Qed.

Lemma cache_unavailable_503_witness :
  r cacheless_process = None
  /\ cache_get "foo" cacheless_process =
       (Raise (HTTPException 503 "Redis service unavailable"), cacheless_process)
  /\ cache_set "foo" "bar" cacheless_process =
       (Raise (HTTPException 503 "Redis service unavailable"), cacheless_process).
Proof.
  split; [reflexivity|].
  destruct (cache_unavailable_503 cacheless_process "foo" "bar" eq_refl)
    as (Hg & Hs & _).
  split; assumption.
Defined.

(** ** The outcomes of a get *)

(** C4, as the code has it.  With the cache handle available, a get answers
    404 when the store reports no value for the key, 503 (with the error
    text) when the call to the store raises a [ConnectionError] or any other
    [RedisError], and [{key, value}] when the store reports a value.  An
    error of any other class is not caught: it leaves the handler unchanged.
    These four cases exclude each other and cover every process; as long as
    the store raises nothing outside the Redis classes, each of the statuses
    404, 503 and 200 occurs only in its own case, so an absent key is never
    answered with 503.  A key that was absent at the start and that no
    request of the history wrote is answered with 404. *)
Theorem cache_get_outcomes (p : process) (c : Redis) (key : string) :
  r p = Some c ->
  let faults := redis_faults (env p) in
  let stored := redis_data (env p) !! key in
  let answer := fst (cache_get key p) in
  (next_fault faults = None -> stored = None ->
   answer = Raise (HTTPException 404 ("Key '" +:+ key +:+ "' not found")))
  /\ (forall e, next_fault faults = Some e ->
        except_ConnectionError_RedisError e = true ->
        answer = Raise (HTTPException 503 ("Redis error: " +:+ str e)))
  /\ (forall val, next_fault faults = None -> stored = Some val ->
        answer = Return (PyDict [("key", PyStr key); ("value", PyStr val)]))
  /\ (forall e, next_fault faults = Some e ->
        except_ConnectionError_RedisError e = false ->
        answer = Raise e)
  /\ ((next_fault faults = None /\ stored = None
       /\ answer = Raise (HTTPException 404 ("Key '" +:+ key +:+ "' not found")))
      \/ (exists e, next_fault faults = Some e
            /\ except_ConnectionError_RedisError e = true
            /\ answer = Raise (HTTPException 503 ("Redis error: " +:+ str e)))
      \/ (exists val, next_fault faults = None /\ stored = Some val
            /\ answer = Return (PyDict [("key", PyStr key); ("value", PyStr val)]))
      \/ (exists e, next_fault faults = Some e
            /\ except_ConnectionError_RedisError e = false
            /\ answer = Raise e))
  /\ ((forall e, next_fault faults = Some e ->
         except_ConnectionError_RedisError e = true) ->
      (status_code_of answer = 404 <-> next_fault faults = None /\ stored = None)
      /\ (status_code_of answer = 503 <-> exists e, next_fault faults = Some e)
      /\ (status_code_of answer = 200 <->
            next_fault faults = None /\ exists val, stored = Some val))
  /\ (forall (reqs : list request) (p0 : process),
        p = snd (serve reqs p0) ->
        redis_data (env p0) !! key = None ->
        ~ In key (written reqs) ->
        next_fault faults = None ->
        answer = Raise (HTTPException 404 ("Key '" +:+ key +:+ "' not found"))).
Proof.
  intros Hr faults stored answer.
  assert (Hnone : next_fault faults = None -> stored = None ->
            answer = Raise (HTTPException 404 ("Key '" +:+ key +:+ "' not found"))).
  { intros Hq Hs. unfold answer. rewrite (cache_get_replies p c key Hr Hq).
    fold stored. rewrite Hs. reflexivity. }
  assert (Hcaught : forall e, next_fault faults = Some e ->
            except_ConnectionError_RedisError e = true ->
            answer = Raise (HTTPException 503 ("Redis error: " +:+ str e))).
  { intros e Hq He. unfold answer.
    rewrite (cache_get_raises p c key e Hr Hq), He. reflexivity. }
  assert (Hsome : forall val, next_fault faults = None -> stored = Some val ->
            answer = Return (PyDict [("key", PyStr key); ("value", PyStr val)])).
  { intros val Hq Hs. unfold answer. rewrite (cache_get_replies p c key Hr Hq).
    fold stored. rewrite Hs. reflexivity. }
  assert (Hother : forall e, next_fault faults = Some e ->
            except_ConnectionError_RedisError e = false -> answer = Raise e).
  { intros e Hq He. unfold answer.
    rewrite (cache_get_raises p c key e Hr Hq), He. reflexivity. }
  split; [exact Hnone|]. split; [exact Hcaught|]. split; [exact Hsome|].
  split; [exact Hother|]. split; [|split].
  - destruct (next_fault faults) as [e|] eqn:Hq.
    + destruct (except_ConnectionError_RedisError e) eqn:He.
      * right. left. exists e. auto.
      * right. right. right. exists e. auto.
    + destruct stored as [val|] eqn:Hs.
      * right. right. left. exists val. auto.
      * left. auto.
  - intros Hcls. unfold answer.
    destruct (next_fault faults) as [e|] eqn:Hq.
    + rewrite (cache_get_raises p c key e Hr Hq), (Hcls e eq_refl). simpl.
      repeat split; try (intros [? ?]; discriminate); try discriminate; eauto.
    + rewrite (cache_get_replies p c key Hr Hq). fold stored.
      destruct stored as [val|]; simpl.
      * repeat split; try discriminate; try (intros [? ?]; discriminate); eauto.
      * repeat split; try discriminate; try (intros [? [? ?]]; discriminate);
          try (intros [? ?]; discriminate).
  - intros reqs p0 Hp Hk0 Hw Hq. apply Hnone; [exact Hq|].
    destruct stored eqn:Hs; [exfalso|reflexivity].
    destruct (serve_written reqs p0 key) as [H|H].
    + rewrite <- Hp. unfold stored in Hs. rewrite Hs. discriminate.
    + apply H. exact Hk0.
    + apply Hw. exact H.
Qed.

Lemma cache_get_outcomes_witness :
  r (snd (serve [POST_cache "foo" "bar"; GET_health] sample_process)) = Some sample_redis
  /\ fst (cache_get "missing" (snd (serve [POST_cache "foo" "bar"; GET_health] sample_process)))
     = Raise (HTTPException 404 "Key 'missing' not found")
  /\ fst (cache_get "foo" (snd (serve [POST_cache "foo" "bar"; GET_health] sample_process)))
     = Return (PyDict [("key", PyStr "foo"); ("value", PyStr "bar")]).
Proof.
  split; [reflexivity|].
  destruct (cache_get_outcomes
              (snd (serve [POST_cache "foo" "bar"; GET_health] sample_process))
              sample_redis "missing" eq_refl) as (_ & _ & _ & _ & _ & _ & Hnever).
  destruct (cache_get_outcomes
              (snd (serve [POST_cache "foo" "bar"; GET_health] sample_process))
              sample_redis "foo" eq_refl) as (_ & _ & Hsome & _).
  split.
  - apply (Hnever [POST_cache "foo" "bar"; GET_health] sample_process eq_refl).
    + reflexivity.
    + simpl. intros [H|[]]. discriminate H.
    + reflexivity.
  - apply (Hsome "bar"); reflexivity.
Defined.

(** C4, as the claim has it, fails: the three outcomes are not the only
    ones.  With the handle available, when the call to the store raises an
    error outside the Redis classes (here the [UnicodeDecodeError] that
    decoding a stored value that is not UTF-8 raises), the get answers none
    of 404, 503 and [{key, value}]: the error leaves the handler and the
    framework answers 500. *)
Lemma cache_get_fourth_outcome_counterexample :
  r (with_cache (Some sample_redis) ∅
       [Some (Exception "UnicodeDecodeError" "invalid start byte")] sample_process)
    = Some sample_redis
  /\ fst (cache_get "foo"
            (with_cache (Some sample_redis) ∅
               [Some (Exception "UnicodeDecodeError" "invalid start byte")]
               sample_process)) =
       Raise (Exception "UnicodeDecodeError" "invalid start byte")
  /\ status_code_of
       (fst (cache_get "foo"
               (with_cache (Some sample_redis) ∅
                  [Some (Exception "UnicodeDecodeError" "invalid start byte")]
                  sample_process))) = 500.
Proof. repeat split; reflexivity. Qed.

(** ** The answer of a set *)

(** C10. A set that succeeds answers exactly [{status: "ok", key, value}]
    with the key and the value it was given; it succeeds whenever the handle
    is available and the store raises nothing; and its answer is the same
    whatever the store held before. *)
Theorem cache_set_echo (p : process) (key value : string) :
  (forall c, r p = Some c -> next_fault (redis_faults (env p)) = None ->
     fst (cache_set key value p) =
       Return (PyDict [("status", PyStr "ok"); ("key", PyStr key); ("value", PyStr value)]))
  /\ (forall v, fst (cache_set key value p) = Return v ->
        v = PyDict [("status", PyStr "ok"); ("key", PyStr key); ("value", PyStr value)])
  /\ (forall d : gmap string string,
        fst (cache_set key value (with_store d p)) = fst (cache_set key value p)).
Proof.
  split; [|split].
  - intros c Hr Hq. rewrite (cache_set_ok p c key value Hr Hq). reflexivity.
  - intros v. destruct (r p) as [c|] eqn:Hr.
    + destruct (next_fault (redis_faults (env p))) as [e|] eqn:Hq.
      * rewrite (cache_set_raises p c key value e Hr Hq). simpl.
        destruct (except_ConnectionError_RedisError e); discriminate.
      * rewrite (cache_set_ok p c key value Hr Hq). simpl. congruence.
    + destruct (cache_unavailable p key value Hr) as [_ Hs]. rewrite Hs.
      discriminate.
  - intros d. destruct (r p) as [c|] eqn:Hr.
    + destruct (next_fault (redis_faults (env p))) as [e|] eqn:Hq.
      * rewrite (cache_set_raises p c key value e Hr Hq).
        rewrite (cache_set_raises (with_store d p) c key value e Hr Hq).
        reflexivity.
      * rewrite (cache_set_ok p c key value Hr Hq).
        rewrite (cache_set_ok (with_store d p) c key value Hr Hq).
        reflexivity.
    + destruct (cache_unavailable p key value Hr) as [_ Hs].
      destruct (cache_unavailable (with_store d p) key value Hr) as [_ Hs'].
      rewrite Hs, Hs'. reflexivity.
Qed.

Lemma cache_set_echo_witness :
  fst (cache_set "foo" "bar" sample_process) =
    Return (PyDict [("status", PyStr "ok"); ("key", PyStr "foo"); ("value", PyStr "bar")])
  /\ fst (cache_set "foo" "bar" (with_store {["foo" := "old"]} sample_process)) =
       fst (cache_set "foo" "bar" sample_process).
Proof.
  destruct (cache_set_echo sample_process "foo" "bar") as (Hok & _ & Hsame).
  split.
  - apply (Hok sample_redis); reflexivity.
  - apply Hsame.
Defined.

(** ** Composite health *)

Lemma health_check_runs (p : process) :
  health_check p =
    (Return (PyDict
       [("status", PyStr (if redis_live p && pg_live p then "healthy" else "degraded"));
        ("redis", PyStr (status_word (redis_live p)));
        ("postgresql", PyStr (status_word (pg_live p)));
        ("redis_host", PyStr (REDIS_HOST (conf p)));
        ("postgres_host", PyStr (POSTGRES_HOST (conf p)))]),
     mkProcess (conf p) (r p) (pg_conn p) (health_world p)).
Proof.
  unfold redis_live, pg_live, health_world, health_calls, status_word.
  destruct p as [cf [c|] [pc|] [d rf pf ver tr]]; simpl;
    unfold health_check, global, lift, try_except, redis_ping, redis_command,
      cursor_execute, pg_command, mbind, M_bind, mret, M_ret; simpl;
    destruct (next_fault rf) eqn:Hrf; destruct (next_fault pf) eqn:Hpf; simpl;
    rewrite ?Hrf, ?Hpf; simpl; rewrite ?Hrf, ?Hpf; simpl;
    unfold with_pg_faults, with_redis, emit; simpl;
    rewrite <- ?app_assoc, ?app_nil_r; reflexivity.
Qed.

(** C2. A health check never raises: in every process, whatever error the
    ping or the query raises, it returns its five-entry answer.  Each
    sub-status is [healthy] or [unhealthy], the aggregate is [healthy]
    exactly when both sub-statuses are and [degraded] otherwise, and each of
    the four combinations of sub-statuses occurs. *)
Theorem health_check_never_raises :
  (forall p : process,
     exists (status redis postgresql : string) (p' : process),
       health_check p =
         (Return (PyDict
            [("status", PyStr status);
             ("redis", PyStr redis);
             ("postgresql", PyStr postgresql);
             ("redis_host", PyStr (REDIS_HOST (conf p)));
             ("postgres_host", PyStr (POSTGRES_HOST (conf p)))]), p')
       /\ (redis = "healthy" \/ redis = "unhealthy")
       /\ (postgresql = "healthy" \/ postgresql = "unhealthy")
       /\ (status = "healthy" <-> redis = "healthy" /\ postgresql = "healthy")
       /\ (status = "degraded" <-> ~ (redis = "healthy" /\ postgresql = "healthy")))
  /\ (forall cache database : bool,
        exists p : process,
          let answer := fst (health_check p) in
          (exists v, answer = Return v
             /\ item "redis" v = Some (PyStr (status_word cache))
             /\ item "postgresql" v = Some (PyStr (status_word database))
             /\ item "status" v =
                  Some (PyStr (if cache && database then "healthy" else "degraded")))).
Proof.
  split.
  - intros p.
    exists (if redis_live p && pg_live p then "healthy" else "degraded"),
      (status_word (redis_live p)), (status_word (pg_live p)),
      (mkProcess (conf p) (r p) (pg_conn p) (health_world p)).
    split; [apply health_check_runs|].
    destruct (redis_live p), (pg_live p); simpl;
      repeat split; auto; try discriminate;
      try (intros [? ?]; discriminate); try (intros H; exfalso; apply H; auto);
      try (intros _ [? ?]; discriminate).
  - intros cache database. exists (process_with cache database).
    rewrite health_check_runs. simpl. eexists. split; [reflexivity|].
    destruct cache, database; repeat split; reflexivity.
Qed.

Lemma health_check_never_raises_witness :
  exists (status redis postgresql : string) (p' : process),
    health_check cacheless_process =
      (Return (PyDict
         [("status", PyStr status);
          ("redis", PyStr redis);
          ("postgresql", PyStr postgresql);
          ("redis_host", PyStr "redis");
          ("postgres_host", PyStr "postgres")]), p')
    /\ (redis = "healthy" \/ redis = "unhealthy")
    /\ (postgresql = "healthy" \/ postgresql = "unhealthy")
    /\ (status = "healthy" <-> redis = "healthy" /\ postgresql = "healthy")
    /\ (status = "degraded" <-> ~ (redis = "healthy" /\ postgresql = "healthy")).
Proof. exact (proj1 health_check_never_raises cacheless_process). Defined.

(** C9. When start-up left a handle at [None], a health check reports that
    dependency [unhealthy] and makes no call to it: it consumes nothing of
    that server's schedule and the only call it may add to the trace is the
    re-check of the other dependency, which is made whenever the other
    handle is there and decides the other sub-status; the check returns. *)
Theorem health_check_skips_absent (p : process) :
  exists (v : pyval) (p' : process),
    health_check p = (Return v, p')
    /\ (r p = None ->
        item "redis" v = Some (PyStr "unhealthy")
        /\ redis_faults (env p') = redis_faults (env p)
        /\ trace (env p') =
             (trace (env p)
              ++ match pg_conn p with Some _ => [Execute "SELECT 1;"] | None => [] end)%list
        /\ filter is_redis_call (health_calls p) = []
        /\ item "postgresql" v = Some (PyStr (status_word (pg_live p))))
    /\ (pg_conn p = None ->
        item "postgresql" v = Some (PyStr "unhealthy")
        /\ pg_faults (env p') = pg_faults (env p)
        /\ trace (env p') =
             (trace (env p) ++ match r p with Some _ => [Ping] | None => [] end)%list
        /\ filter is_pg_call (health_calls p) = []
        /\ item "redis" v = Some (PyStr (status_word (redis_live p)))).
Proof.
  eexists. eexists. split; [apply health_check_runs|].
  unfold health_world, health_calls, redis_live, pg_live. simpl.
  split; intros H; rewrite H; simpl.
  - repeat split; try reflexivity. destruct (pg_conn p); reflexivity.
  - rewrite app_nil_r. repeat split; try reflexivity.
    destruct (r p); reflexivity.
Qed.

Lemma health_check_skips_absent_witness :
  r cacheless_process = None
  /\ exists (v : pyval) (p' : process),
       health_check cacheless_process = (Return v, p')
       /\ item "redis" v = Some (PyStr "unhealthy")
       /\ trace (env p') = [Execute "SELECT 1;"]
       /\ item "postgresql" v = Some (PyStr "healthy").
Proof.
  split; [reflexivity|].
  destruct (health_check_skips_absent cacheless_process) as (v & p' & Hrun & Hr & _).
  exists v, p'. destruct (Hr eq_refl) as (H1 & _ & H3 & _ & H5).
  repeat split; assumption.
Defined.

(** ** The database probe *)

Lemma db_test_runs (p : process) (c : connection) :
  pg_conn p = Some c ->
  fst (db_test p) =
    match next_fault (pg_faults (env p)) with
    | None => Return (PyDict [("postgres_version", PyStr (pg_version (env p)));
                              ("status", PyStr "success")])
    | Some e =>
        if except_OperationalError e
        then Raise (HTTPException 503 ("PostgreSQL error: " +:+ str e))
        else Raise e
    end.
Proof.
  intros Hc.
  unfold db_test, global, lift, try_except, cursor_execute, pg_command,
    mbind, M_bind.
  rewrite Hc. simpl.
  destruct (next_fault (pg_faults (env p))) as [e|]; simpl.
  - destruct (except_OperationalError e); reflexivity.
  - reflexivity.
Qed.




(** ** The handles over the process lifetime *)

(** C8. Module start-up assigns [r] and [pg_conn] from the two
    initialisations, once, before any request; no handler replaces either,
    so after any history of requests both are what start-up left.  The root
    handler never raises, leaves the process as it is, and answers with the
    availability of each handle as start-up left it and the fixed table of
    endpoints: the same answer after any history as before the first
    request. *)
Theorem handles_fixed_at_startup (cfg : config) (w : world) (p0 : process)
    (reqs : list request) :
  module_init cfg w = Return p0 ->
  (exists w1 w2,
     init_redis cfg w = (Return (r p0), w1)
     /\ init_postgres cfg w1 = (Return (pg_conn p0), w2))
  /\ (forall (req : request) (p : process),
        r (snd (route req p)) = r p /\ pg_conn (snd (route req p)) = pg_conn p)
  /\ r (snd (serve reqs p0)) = r p0
  /\ pg_conn (snd (serve reqs p0)) = pg_conn p0
  /\ root (snd (serve reqs p0)) =
       (Return (PyDict
          [("message", PyStr "Hello from Bootcamp Day 3");
           ("services", PyDict
              [("redis", PyStr (match r p0 with Some _ => "available"
                                            | None => "unavailable" end));
               ("postgresql", PyStr (match pg_conn p0 with Some _ => "available"
                                                       | None => "unavailable" end))]);
           ("endpoints", PyDict
              [("health_check", PyStr "/health");
               ("cache_get", PyStr "/cache/{key}");
               ("cache_set", PyStr "/cache/{key}/{value}");
               ("db_test", PyStr "/db")])]),
        snd (serve reqs p0))
  /\ fst (root (snd (serve reqs p0))) = fst (root p0).
Proof.
  intros Hinit.
  destruct (serve_globals reqs p0) as (_ & Hr & Hpg).
  split; [|split; [|split; [|split; [|split]]]].
  - unfold module_init in Hinit.
    destruct (init_redis cfg w) as [[r0|e] w1]; [|discriminate].
    destruct (init_postgres cfg w1) as [[pg0|e] w2] eqn:Hpg0; [|discriminate].
    injection Hinit as <-. simpl. eauto.
  - intros req p. destruct (route_frame req p) as (_ & H1 & H2 & _). auto.
  - exact Hr.
  - exact Hpg.
  - unfold root, global, mbind, M_bind, mret, M_ret. rewrite Hr, Hpg. reflexivity.
  - unfold root, global, mbind, M_bind, mret, M_ret. simpl. rewrite Hr, Hpg.
    reflexivity.
Qed.

Lemma handles_fixed_at_startup_witness :
  module_init default_config calm_world =
    Return (mkProcess default_config (Some sample_redis) (Some sample_connection)
              (snd (init_postgres default_config
                      (snd (init_redis default_config calm_world)))))
  /\ item "services"
       match fst (root (snd (serve [POST_cache "foo" "bar"; GET_db; GET_health]
                              (mkProcess default_config (Some sample_redis)
                                 (Some sample_connection)
                                 (snd (init_postgres default_config
                                    (snd (init_redis default_config calm_world)))))))) with
       | Return v => v
       | Raise _ => PyStr ""
       end =
     Some (PyDict [("redis", PyStr "available"); ("postgresql", PyStr "available")]).
Proof.
  split; [reflexivity|].
  destruct (handles_fixed_at_startup default_config calm_world
              (mkProcess default_config (Some sample_redis) (Some sample_connection)
                 (snd (init_postgres default_config
                         (snd (init_redis default_config calm_world)))))
              [POST_cache "foo" "bar"; GET_db; GET_health] eq_refl)
    as (_ & _ & _ & _ & Hroot & _).
  rewrite Hroot. reflexivity.
Defined.

(** ** One attempt of each initialisation *)

Lemma emit_redis_world ev fs t w :
  emit ev (redis_world fs t w) = redis_world fs (t ++ [ev]) w.
Proof. unfold emit, redis_world. simpl. rewrite <- app_assoc. reflexivity. Qed.

Lemma emit_pg_world ev fs t w :
  emit ev (pg_world fs t w) = pg_world fs (t ++ [ev]) w.
Proof. unfold emit, pg_world. simpl. rewrite <- app_assoc. reflexivity. Qed.

Lemma init_redis_attempt_runs cfg n d i w :
  init_redis_attempt cfg n d i w =
    match next_fault (redis_faults w) with
    | None =>
        (Return (Some (Some (redis_client cfg))),
         redis_world (tail (redis_faults w)) [Ping; redis_connected cfg] w)
    | Some e =>
        if except_ConnectionError_RedisError e
        then on_caught n d i (redis_not_ready n i e) redis_gave_up
               (redis_world (tail (redis_faults w)) [Ping] w)
        else (Raise e, redis_world (tail (redis_faults w)) [Ping] w)
    end.
Proof.
  unfold init_redis_attempt, try_except, redis_ping, redis_command, logger,
    time_sleep, on_caught, mbind, M_bind, mret, M_ret.
  simpl.
  destruct (next_fault (redis_faults w)) as [e|]; simpl.
  - destruct (except_ConnectionError_RedisError e); [|reflexivity].
    destruct (i <? n - 1)%nat; reflexivity.
  - unfold redis_world, emit, with_redis, redis_connected. simpl.
    rewrite <- app_assoc. reflexivity.
Qed.

Lemma init_postgres_attempt_runs cfg n d i w :
  init_postgres_attempt cfg n d i w =
    match next_fault (pg_faults w) with
    | Some e =>
        if except_OperationalError e
        then on_caught n d i (pg_not_ready n i e) pg_gave_up
               (pg_world (tail (pg_faults w))
                  (pg_failure_calls cfg (connect_fails e)) w)
        else (Raise e, pg_world (tail (pg_faults w))
                         (pg_failure_calls cfg (connect_fails e)) w)
    | None =>
        match next_fault (tail (pg_faults w)) with
        | Some e =>
            if except_OperationalError e
            then on_caught n d i (pg_not_ready n i e) pg_gave_up
                   (pg_world (tail (tail (pg_faults w)))
                      (pg_failure_calls cfg (select_fails e)) w)
            else (Raise e, pg_world (tail (tail (pg_faults w)))
                             (pg_failure_calls cfg (select_fails e)) w)
        | None =>
            (Return (Some (Some (pg_connection cfg))),
             pg_world (tail (tail (pg_faults w)))
               [pg_connect_call cfg; Execute "SELECT 1;"; pg_connected cfg] w)
        end
    end.
Proof.
  unfold init_postgres_attempt, try_except, psycopg2_connect, cursor_execute,
    pg_command, logger, time_sleep, on_caught, mbind, M_bind, mret, M_ret.
  simpl.
  destruct (next_fault (pg_faults w)) as [e|]; simpl.
  - destruct (except_OperationalError e); [|reflexivity].
    destruct (i <? n - 1)%nat; reflexivity.
  - destruct (next_fault (tail (pg_faults w))) as [e|]; simpl.
    + unfold pg_world, emit, with_pg_faults. simpl. rewrite <- !app_assoc.
      destruct (except_OperationalError e); [|reflexivity].
      destruct (i <? n - 1)%nat; simpl; rewrite <- ?app_assoc; reflexivity.
    + unfold pg_world, emit, with_pg_faults, pg_connected. simpl.
      rewrite <- !app_assoc. reflexivity.
Qed.

(** ** The loops *)

Lemma for_in_cons {S A} (i : nat) (rest : list nat)
    (body : nat -> M S (option (option A))) (s : S) :
  for_in (i :: rest) body s =
    match body i s with
    | (Return (Some v), s') => (Return v, s')
    | (Return None, s') => for_in rest body s'
    | (Raise e, s') => (Raise e, s')
    end.
Proof.
  simpl. unfold mbind, M_bind.
  destruct (body i s) as [[[v|]|e] s']; reflexivity.
Qed.

Lemma redis_world_here w : redis_world (redis_faults w) [] w = w.
Proof. destruct w. unfold redis_world. simpl. rewrite app_nil_r. reflexivity. Qed.

Lemma redis_world_twice fs fs' t t' w :
  redis_world fs t (redis_world fs' t' w) = redis_world fs (t' ++ t) w.
Proof. unfold redis_world. simpl. rewrite <- app_assoc. reflexivity. Qed.

Lemma pg_world_here w : pg_world (pg_faults w) [] w = w.
Proof. destruct w. unfold pg_world. simpl. rewrite app_nil_r. reflexivity. Qed.

Lemma pg_world_twice fs fs' t t' w :
  pg_world fs t (pg_world fs' t' w) = pg_world fs (t' ++ t) w.
Proof. unfold pg_world. simpl. rewrite <- app_assoc. reflexivity. Qed.

(** The failed attempts that are retried: the loop is where it would be had
    it started after them. *)
Lemma init_redis_retries cfg n d : forall (es : list exn) (a m : nat) (w : world)
    (rest : list (option exn)),
  Forall (fun e => except_ConnectionError_RedisError e = true) es ->
  redis_faults w = (map Some es ++ rest)%list ->
  (a + length es <= n - 1)%nat ->
  for_in (seq a (length es + m)) (init_redis_attempt cfg n d) w =
    for_in (seq (a + length es) m) (init_redis_attempt cfg n d)
      (redis_world rest (redis_retries n d a es) w).
Proof.
  induction es as [|e es IH]; intros a m w rest Hes Hw Hlen.
  - simpl in *. rewrite <- Hw, redis_world_here, Nat.add_0_r. reflexivity.
  - inversion Hes as [|? ? He Hes']; subst.
    change (redis_faults w = Some e :: (map Some es ++ rest)%list) in Hw.
    simpl length in *. simpl seq. rewrite for_in_cons, init_redis_attempt_runs.
    rewrite Hw. cbn [next_fault tail]. rewrite He. unfold on_caught.
    replace (a <? n - 1)%nat with true by (symmetry; apply Nat.ltb_lt; lia).
    rewrite !emit_redis_world.
    rewrite (IH (S a) m _ rest Hes'); [|reflexivity|lia].
    rewrite redis_world_twice.
    replace (S a + length es)%nat with (a + S (length es))%nat by lia.
    reflexivity.
Qed.

Lemma init_postgres_retries cfg n d : forall (fl : list pg_failure) (a m : nat)
    (w : world) (rest : list (option exn)),
  Forall (fun f => except_OperationalError (pg_error f) = true) fl ->
  pg_faults w = (pg_schedule fl ++ rest)%list ->
  (a + length fl <= n - 1)%nat ->
  for_in (seq a (length fl + m)) (init_postgres_attempt cfg n d) w =
    for_in (seq (a + length fl) m) (init_postgres_attempt cfg n d)
      (pg_world rest (pg_retries cfg n d a fl) w).
Proof.
  induction fl as [|f fl IH]; intros a m w rest Hfl Hw Hlen.
  - simpl in *. rewrite <- Hw, pg_world_here, Nat.add_0_r. reflexivity.
  - inversion Hfl as [|? ? Hf Hfl']; subst.
    simpl length in *. simpl seq.
    rewrite for_in_cons, init_postgres_attempt_runs.
    assert (Hlt : (a <? n - 1)%nat = true) by (apply Nat.ltb_lt; lia).
    destruct f as [e|e]; simpl in Hf;
      cbn [pg_schedule pg_failure_schedule app] in Hw;
      rewrite Hw; cbn [next_fault tail]; rewrite Hf;
      unfold on_caught; rewrite Hlt; rewrite !emit_pg_world;
      (rewrite (IH (S a) m _ rest Hfl'); [|reflexivity|lia]);
      rewrite pg_world_twice;
      replace (S a + length fl)%nat with (a + S (length fl))%nat by lia;
      cbn [pg_retries pg_error pg_failure_calls app];
      reflexivity.
Qed.

(** ** Counting attempts and sleeps *)

Lemma attempts_app t1 t2 : attempts (t1 ++ t2) = (attempts t1 + attempts t2)%nat.
Proof. unfold attempts. rewrite filter_app, length_app. reflexivity. Qed.

Lemma sleeps_app t1 t2 : sleeps (t1 ++ t2) = (sleeps t1 ++ sleeps t2)%list.
Proof. unfold sleeps. apply omap_app. Qed.

Section Counting.
Context {A : Type}.
Variable body : nat -> M world (option (option A)).
Variables (n : nat) (d : Z).

(** Each pass through the body makes one attempt; it sleeps, once and for
    [d], exactly when it falls through to the next pass, which the last
    pass never does. *)
Hypothesis body_pass : forall i w,
  exists t, trace (snd (body i w)) = (trace w ++ t)%list
    /\ attempts t = 1%nat
    /\ match fst (body i w) with
       | Return None => sleeps t = [d] /\ (i < n - 1)%nat
       | _ => sleeps t = []
       end.

Lemma for_in_counts : forall (m a : nat) (w : world),
  (a + m = n)%nat -> (0 < m)%nat ->
  exists t, trace (snd (for_in (seq a m) body w)) = (trace w ++ t)%list
    /\ (1 <= attempts t <= m)%nat
    /\ sleeps t = replicate (attempts t - 1) d.
Proof.
  induction m as [|m IH]; intros a w Ham Hm; [lia|].
  simpl seq. rewrite for_in_cons.
  destruct (body_pass a w) as (t & Ht & Hat & Hsl).
  destruct (body a w) as [[[v|]|e] w1]; simpl in Ht, Hsl.
  - exists t. simpl. rewrite Hat. simpl. repeat split; auto; lia.
  - destruct Hsl as [Hsl Hlast].
    destruct (IH (S a) w1) as (t2 & Ht2 & Hat2 & Hsl2); [lia|lia|].
    exists (t ++ t2)%list. rewrite Ht2, Ht, <- app_assoc.
    split; [reflexivity|]. rewrite attempts_app, sleeps_app, Hat, Hsl, Hsl2.
    split; [lia|].
    replace (1 + attempts t2 - 1)%nat with (S (attempts t2 - 1)) by lia.
    reflexivity.
  - exists t. simpl. rewrite Hat. simpl. repeat split; auto; lia.
Qed.
End Counting.

Lemma init_redis_pass cfg n d i w :
  exists t, trace (snd (init_redis_attempt cfg n d i w)) = (trace w ++ t)%list
    /\ attempts t = 1%nat
    /\ match fst (init_redis_attempt cfg n d i w) with
       | Return None => sleeps t = [d] /\ (i < n - 1)%nat
       | _ => sleeps t = []
       end.
Proof.
  rewrite init_redis_attempt_runs. unfold on_caught.
  destruct (next_fault (redis_faults w)) as [e|].
  - destruct (except_ConnectionError_RedisError e).
    + destruct (i <? n - 1)%nat eqn:Hi; rewrite !emit_redis_world;
        eexists; (split; [reflexivity|]); simpl; auto.
      apply Nat.ltb_lt in Hi. auto.
    + eexists; (split; [reflexivity|]); simpl; auto.
  - eexists; (split; [reflexivity|]); simpl; auto.
Qed.

Lemma init_postgres_pass cfg n d i w :
  exists t, trace (snd (init_postgres_attempt cfg n d i w)) = (trace w ++ t)%list
    /\ attempts t = 1%nat
    /\ match fst (init_postgres_attempt cfg n d i w) with
       | Return None => sleeps t = [d] /\ (i < n - 1)%nat
       | _ => sleeps t = []
       end.
Proof.
  rewrite init_postgres_attempt_runs. unfold on_caught.
  destruct (next_fault (pg_faults w)) as [e|];
    [|destruct (next_fault (tail (pg_faults w))) as [e|]];
    try destruct (except_OperationalError e);
    try destruct (i <? n - 1)%nat eqn:Hi; rewrite ?emit_pg_world;
    eexists; (split; [reflexivity|]); simpl; auto.
  all: apply Nat.ltb_lt in Hi; auto.
Qed.

(** ** The three ways an initialisation ends *)

Lemma init_redis_loop cfg :
  init_redis cfg = for_in (seq 0 10) (init_redis_attempt cfg 10 2).
Proof. reflexivity. Qed.

Lemma init_postgres_loop cfg :
  init_postgres cfg = for_in (seq 0 10) (init_postgres_attempt cfg 10 2).
Proof. reflexivity. Qed.

Lemma init_redis_succeeds cfg w (es : list exn) (rest : list (option exn)) :
  Forall (fun e => except_ConnectionError_RedisError e = true) es ->
  (length es < 10)%nat ->
  redis_faults w = (map Some es ++ rest)%list ->
  next_fault rest = None ->
  init_redis cfg w =
    (Return (Some (redis_client cfg)),
     redis_world (tail rest)
       (redis_retries 10 2 0 es ++ [Ping; redis_connected cfg]) w).
Proof.
  intros Hes Hlen Hw Hrest. rewrite init_redis_loop.
  replace (seq 0 10) with (seq 0 (length es + S (9 - length es)))
    by (f_equal; lia).
  rewrite (init_redis_retries cfg 10 2 es 0 _ w rest Hes Hw) by (simpl; lia).
  simpl seq. rewrite for_in_cons, init_redis_attempt_runs.
  simpl redis_faults. rewrite Hrest, redis_world_twice. reflexivity.
Qed.

Lemma init_redis_gives_up cfg w (es : list exn) (e : exn) (rest : list (option exn)) :
  Forall (fun e => except_ConnectionError_RedisError e = true) (es ++ [e]) ->
  length es = 9%nat ->
  redis_faults w = (map Some (es ++ [e]) ++ rest)%list ->
  init_redis cfg w =
    (Return None,
     redis_world rest (redis_retries 10 2 0 es ++ [Ping; redis_gave_up]) w).
Proof.
  intros Hes Hlen Hw. apply Forall_app in Hes as [Hes He].
  inversion He as [|? ? He' _]; subst.
  rewrite map_app, <- app_assoc in Hw. rewrite init_redis_loop.
  replace (seq 0 10) with (seq 0 (length es + 1)) by (f_equal; lia).
  rewrite (init_redis_retries cfg 10 2 es 0 _ w _ Hes Hw) by (simpl; lia).
  rewrite Hlen. simpl seq. rewrite for_in_cons, init_redis_attempt_runs.
  simpl redis_faults. cbn [map app next_fault tail]. rewrite He'.
  unfold on_caught. change (9 <? 10 - 1)%nat with false. cbv iota.
  rewrite emit_redis_world, redis_world_twice. reflexivity.
Qed.

Lemma init_redis_propagates cfg w (es : list exn) (e : exn) (rest : list (option exn)) :
  Forall (fun e => except_ConnectionError_RedisError e = true) es ->
  (length es < 10)%nat ->
  redis_faults w = (map Some es ++ Some e :: rest)%list ->
  except_ConnectionError_RedisError e = false ->
  init_redis cfg w =
    (Raise e, redis_world rest (redis_retries 10 2 0 es ++ [Ping]) w).
Proof.
  intros Hes Hlen Hw He. rewrite init_redis_loop.
  replace (seq 0 10) with (seq 0 (length es + S (9 - length es)))
    by (f_equal; lia).
  rewrite (init_redis_retries cfg 10 2 es 0 _ w _ Hes Hw) by (simpl; lia).
  simpl seq. rewrite for_in_cons, init_redis_attempt_runs.
  simpl redis_faults. cbn [next_fault tail]. rewrite He, redis_world_twice.
  reflexivity.
Qed.

Lemma init_postgres_succeeds cfg w (fl : list pg_failure) (rest : list (option exn)) :
  Forall (fun f => except_OperationalError (pg_error f) = true) fl ->
  (length fl < 10)%nat ->
  pg_faults w = (pg_schedule fl ++ rest)%list ->
  quiet 2 rest = true ->
  init_postgres cfg w =
    (Return (Some (pg_connection cfg)),
     pg_world (tail (tail rest))
       (pg_retries cfg 10 2 0 fl
        ++ [pg_connect_call cfg; Execute "SELECT 1;"; pg_connected cfg]) w).
Proof.
  intros Hfl Hlen Hw Hq.
  apply quiet_S in Hq as [Hq1 Hq]. apply quiet_S in Hq as [Hq2 _].
  rewrite init_postgres_loop.
  replace (seq 0 10) with (seq 0 (length fl + S (9 - length fl)))
    by (f_equal; lia).
  rewrite (init_postgres_retries cfg 10 2 fl 0 _ w rest Hfl Hw) by (simpl; lia).
  simpl seq. rewrite for_in_cons, init_postgres_attempt_runs.
  simpl pg_faults. rewrite Hq1, Hq2, pg_world_twice. reflexivity.
Qed.

Lemma init_postgres_gives_up cfg w (fl : list pg_failure) (f : pg_failure)
    (rest : list (option exn)) :
  Forall (fun f => except_OperationalError (pg_error f) = true) (fl ++ [f]) ->
  length fl = 9%nat ->
  pg_faults w = (pg_schedule fl ++ pg_failure_schedule f ++ rest)%list ->
  init_postgres cfg w =
    (Return None,
     pg_world rest
       (pg_retries cfg 10 2 0 fl ++ pg_failure_calls cfg f ++ [pg_gave_up]) w).
Proof.
  intros Hfl Hlen Hw. apply Forall_app in Hfl as [Hfl Hf].
  inversion Hf as [|? ? Hf' _]; subst.
  rewrite init_postgres_loop.
  replace (seq 0 10) with (seq 0 (length fl + 1)) by (f_equal; lia).
  rewrite (init_postgres_retries cfg 10 2 fl 0 _ w _ Hfl Hw) by (simpl; lia).
  rewrite Hlen. simpl seq. rewrite for_in_cons, init_postgres_attempt_runs.
  simpl pg_faults.
  destruct f as [e|e]; simpl in Hf'; cbn [pg_failure_schedule app next_fault tail];
    rewrite Hf'; unfold on_caught; change (9 <? 10 - 1)%nat with false; cbv iota;
    rewrite emit_pg_world, pg_world_twice, <- ?app_assoc; reflexivity.
Qed.

Lemma init_postgres_propagates cfg w (fl : list pg_failure) (f : pg_failure)
    (rest : list (option exn)) :
  Forall (fun f => except_OperationalError (pg_error f) = true) fl ->
  (length fl < 10)%nat ->
  pg_faults w = (pg_schedule fl ++ pg_failure_schedule f ++ rest)%list ->
  except_OperationalError (pg_error f) = false ->
  init_postgres cfg w =
    (Raise (pg_error f),
     pg_world rest (pg_retries cfg 10 2 0 fl ++ pg_failure_calls cfg f) w).
Proof.
  intros Hfl Hlen Hw Hf. rewrite init_postgres_loop.
  replace (seq 0 10) with (seq 0 (length fl + S (9 - length fl)))
    by (f_equal; lia).
  rewrite (init_postgres_retries cfg 10 2 fl 0 _ w _ Hfl Hw) by (simpl; lia).
  simpl seq. rewrite for_in_cons, init_postgres_attempt_runs.
  simpl pg_faults.
  destruct f as [e|e]; simpl in Hf; cbn [pg_failure_schedule app next_fault tail];
    rewrite Hf, pg_world_twice; reflexivity.
Qed.

(** ** Bounded retry *)

(** C5. Each initialisation makes at least one and at most 10 attempts, and
    sleeps once, for exactly 2, after every attempt but the last one it
    makes.  When the first [k < 10] attempts fail with errors of the classes
    the [except] clause names and the next one goes through, it returns the
    handle at once: the trace is the [k] retried attempts (call, warning,
    sleep 2) followed by the successful one, and nothing after it.  When all
    10 attempts fail with such errors it returns [None]: nine retried
    attempts, then the tenth followed by the error line and no sleep. *)
Theorem acquire_bounded_retry (cfg : config) (w : world) :
  (exists t, trace (snd (init_redis cfg w)) = (trace w ++ t)%list
     /\ (1 <= attempts t <= 10)%nat
     /\ sleeps t = replicate (attempts t - 1) 2)
  /\ (exists t, trace (snd (init_postgres cfg w)) = (trace w ++ t)%list
        /\ (1 <= attempts t <= 10)%nat
        /\ sleeps t = replicate (attempts t - 1) 2)
  /\ (forall (es : list exn) (rest : list (option exn)),
        Forall (fun e => except_ConnectionError_RedisError e = true) es ->
        (length es < 10)%nat ->
        redis_faults w = (map Some es ++ rest)%list ->
        next_fault rest = None ->
        init_redis cfg w =
          (Return (Some (redis_client cfg)),
           redis_world (tail rest)
             (redis_retries 10 2 0 es ++ [Ping; redis_connected cfg]) w))
  /\ (forall (es : list exn) (e : exn) (rest : list (option exn)),
        Forall (fun e => except_ConnectionError_RedisError e = true) (es ++ [e]) ->
        length es = 9%nat ->
        redis_faults w = (map Some (es ++ [e]) ++ rest)%list ->
        init_redis cfg w =
          (Return None,
           redis_world rest (redis_retries 10 2 0 es ++ [Ping; redis_gave_up]) w))
  /\ (forall (fl : list pg_failure) (rest : list (option exn)),
        Forall (fun f => except_OperationalError (pg_error f) = true) fl ->
        (length fl < 10)%nat ->
        pg_faults w = (pg_schedule fl ++ rest)%list ->
        quiet 2 rest = true ->
        init_postgres cfg w =
          (Return (Some (pg_connection cfg)),
           pg_world (tail (tail rest))
             (pg_retries cfg 10 2 0 fl
              ++ [pg_connect_call cfg; Execute "SELECT 1;"; pg_connected cfg]) w))
  /\ (forall (fl : list pg_failure) (f : pg_failure) (rest : list (option exn)),
        Forall (fun f => except_OperationalError (pg_error f) = true) (fl ++ [f]) ->
        length fl = 9%nat ->
        pg_faults w = (pg_schedule fl ++ pg_failure_schedule f ++ rest)%list ->
        init_postgres cfg w =
          (Return None,
           pg_world rest
             (pg_retries cfg 10 2 0 fl ++ pg_failure_calls cfg f ++ [pg_gave_up]) w)).
Proof.
  split; [|split; [|split; [|split; [|split]]]].
  - rewrite init_redis_loop.
    apply (for_in_counts (init_redis_attempt cfg 10 2) 10 2
             (init_redis_pass cfg 10 2) 10 0 w); lia.
  - rewrite init_postgres_loop.
    apply (for_in_counts (init_postgres_attempt cfg 10 2) 10 2
             (init_postgres_pass cfg 10 2) 10 0 w); lia.
  - apply init_redis_succeeds.
  - apply init_redis_gives_up.
  - apply init_postgres_succeeds.
  - apply init_postgres_gives_up.
Qed.

Lemma acquire_bounded_retry_witness :
  (fst (init_redis default_config flaky_world) = Return (Some sample_redis)
   /\ trace (snd (init_redis default_config flaky_world)) =
        [Ping; Log WARNING "Redis not ready (attempt 1/10): Connection refused"; Sleep 2;
         Ping; Log WARNING "Redis not ready (attempt 2/10): invalid username-password pair";
         Sleep 2;
         Ping; Log INFO "✅ Redis connected successfully to redis:6379"])
  /\ (fst (init_postgres default_config down_world) = Return None
      /\ attempts (trace (snd (init_postgres default_config down_world))) = 10%nat
      /\ sleeps (trace (snd (init_postgres default_config down_world))) = replicate 9 2
      /\ last (trace (snd (init_postgres default_config down_world))) =
           Some (Log ERROR "❌ Failed to connect to PostgreSQL after maximum retries")).
Proof.
  destruct (acquire_bounded_retry default_config flaky_world)
    as (_ & _ & Hok & _).
  destruct (acquire_bounded_retry default_config down_world)
    as (_ & _ & _ & _ & _ & Hdown).
  split.
  - rewrite (Hok [ConnectionError "Connection refused";
                  RedisError "invalid username-password pair"] [None]).
    + split; reflexivity.
    + repeat constructor.
    + simpl. lia.
    + reflexivity.
    + reflexivity.
  - rewrite (Hdown (replicate 9 (connect_fails (OperationalError "connection refused")))
               (connect_fails (OperationalError "connection refused")) []).
    + repeat split; reflexivity.
    + repeat constructor.
    + reflexivity.
    + reflexivity.
Defined.

(** ** Which errors are retried *)

(** C7, as the code has it.  An attempt treats every error of a class its
    [except] clause names in one way, whether it is a connection error or
    not: [ConnectionError] and every other [RedisError] for the cache,
    [OperationalError] for the database.  Before the last attempt that is a
    warning, a sleep of 2 and the next attempt; at the last attempt the
    error line and [None].  An error of any other class is not caught: it
    leaves the initialisation at once, after the attempts retried before it,
    with no warning, no sleep and no further attempt. *)
Theorem acquire_error_paths (cfg : config) (w : world) :
  (forall (i : nat) (e : exn),
     next_fault (redis_faults w) = Some e ->
     init_redis_attempt cfg 10 2 i w =
       if except_ConnectionError_RedisError e
       then if (i <? 9)%nat
            then (Return None,
                  redis_world (tail (redis_faults w))
                    [Ping; redis_not_ready 10 i e; Sleep 2] w)
            else (Return (Some None),
                  redis_world (tail (redis_faults w)) [Ping; redis_gave_up] w)
       else (Raise e, redis_world (tail (redis_faults w)) [Ping] w))
  /\ (forall (i : nat) (f : pg_failure) (rest : list (option exn)),
        pg_faults w = (pg_failure_schedule f ++ rest)%list ->
        init_postgres_attempt cfg 10 2 i w =
          if except_OperationalError (pg_error f)
          then if (i <? 9)%nat
               then (Return None,
                     pg_world rest
                       (pg_failure_calls cfg f
                        ++ [pg_not_ready 10 i (pg_error f); Sleep 2]) w)
               else (Return (Some None),
                     pg_world rest (pg_failure_calls cfg f ++ [pg_gave_up]) w)
          else (Raise (pg_error f), pg_world rest (pg_failure_calls cfg f) w))
  /\ (forall (es : list exn) (e : exn) (rest : list (option exn)),
        Forall (fun e => except_ConnectionError_RedisError e = true) es ->
        (length es < 10)%nat ->
        redis_faults w = (map Some es ++ Some e :: rest)%list ->
        except_ConnectionError_RedisError e = false ->
        init_redis cfg w =
          (Raise e, redis_world rest (redis_retries 10 2 0 es ++ [Ping]) w))
  /\ (forall (fl : list pg_failure) (f : pg_failure) (rest : list (option exn)),
        Forall (fun f => except_OperationalError (pg_error f) = true) fl ->
        (length fl < 10)%nat ->
        pg_faults w = (pg_schedule fl ++ pg_failure_schedule f ++ rest)%list ->
        except_OperationalError (pg_error f) = false ->
        init_postgres cfg w =
          (Raise (pg_error f),
           pg_world rest (pg_retries cfg 10 2 0 fl ++ pg_failure_calls cfg f) w)).
Proof.
  split; [|split; [|split]].
  - intros i e He. rewrite init_redis_attempt_runs, He. unfold on_caught.
    change (10 - 1)%nat with 9%nat.
    destruct (except_ConnectionError_RedisError e); [|reflexivity].
    destruct (i <? 9)%nat; rewrite !emit_redis_world; reflexivity.
  - intros i f rest Hw. rewrite init_postgres_attempt_runs, Hw.
    unfold on_caught. change (10 - 1)%nat with 9%nat.
    destruct f as [e|e]; cbn [pg_failure_schedule app next_fault tail pg_error];
      (destruct (except_OperationalError e); [|reflexivity]);
      destruct (i <? 9)%nat; rewrite !emit_pg_world; reflexivity.
  - apply init_redis_propagates.
  - apply init_postgres_propagates.
Qed.

Lemma acquire_error_paths_witness :
  init_redis_attempt default_config 10 2 1
    (snd (init_redis_attempt default_config 10 2 0 flaky_world)) =
    (Return None,
     redis_world [None]
       [Ping; redis_not_ready 10 1 (RedisError "invalid username-password pair"); Sleep 2]
       (snd (init_redis_attempt default_config 10 2 0 flaky_world)))
  /\ fst (init_postgres default_config odd_world) =
       Raise (Exception "InterfaceError" "bad connection option").
Proof.
  destruct (acquire_error_paths default_config
              (snd (init_redis_attempt default_config 10 2 0 flaky_world)))
    as (Hredis & _).
  destruct (acquire_error_paths default_config odd_world) as (_ & _ & _ & Hpg).
  split.
  - apply (Hredis 1%nat (RedisError "invalid username-password pair")).
    reflexivity.
  - rewrite (Hpg [] (connect_fails (Exception "InterfaceError" "bad connection option"))
               [None; None]).
    + reflexivity.
    + constructor.
    + simpl. lia.
    + reflexivity.
    + reflexivity.
Defined.

(** C7, as the claim has it, fails: an error of a class the [except] clause
    does not name is not retried.  On [odd_world] the first attempt of each
    initialisation raises such an error, and the initialisation raises it in
    turn after that single attempt: no warning, no sleep, no second attempt,
    no [None].  Had the same attempt raised a connection error, the
    initialisation would have warned, slept and connected at the second
    attempt. *)
Lemma acquire_uncaught_error_counterexample :
  init_redis default_config odd_world =
    (Raise (Exception "ValueError" "invalid literal"),
     redis_world [None] [Ping] odd_world)
  /\ init_postgres default_config odd_world =
       (Raise (Exception "InterfaceError" "bad connection option"),
        pg_world [None; None] [Connect "postgres" 5432 "fnctech" "db"] odd_world)
  /\ sleeps (trace (snd (init_postgres default_config odd_world))) = []
  /\ attempts (trace (snd (init_postgres default_config odd_world))) = 1%nat
  /\ fst (init_postgres default_config
            (pg_world [Some (OperationalError "connection refused"); None; None] []
               odd_world)) =
       Return (Some sample_connection)
  /\ sleeps (trace (snd (init_postgres default_config
               (pg_world [Some (OperationalError "connection refused"); None; None] []
                  odd_world)))) = [2].
Proof. repeat split; reflexivity. Qed.

(** * Further properties of the handlers *)

Lemma all_clear_next fs : all_clear fs -> next_fault fs = None.
Proof. intros H. destruct H as [|f fs Hf _]; [reflexivity|]. subst. reflexivity. Qed.

Lemma all_clear_tail fs : all_clear fs -> all_clear (tail fs).
Proof. intros H. destruct H; [constructor|assumption]. Qed.

(** A request consumes at most one entry of the store's schedule. *)
Lemma route_redis_schedule req p :
  redis_faults (env (snd (route req p))) = redis_faults (env p)
  \/ redis_faults (env (snd (route req p))) = tail (redis_faults (env p)).
Proof.
  destruct req; unfold route; run_handler; auto.
Qed.

Lemma route_clear_store req p c :
  r p = Some c ->
  all_clear (redis_faults (env p)) ->
  all_clear (redis_faults (env (snd (route req p))))
  /\ redis_data (env (snd (route req p))) =
       match req with
       | POST_cache key value => <[key := value]> (redis_data (env p))
       | _ => redis_data (env p)
       end.
Proof.
  intros Hr Hclear. split.
  - destruct (route_redis_schedule req p) as [H|H]; rewrite H;
      auto using all_clear_tail.
  - destruct (route_frame req p) as (_ & _ & _ & Hst & _).
    destruct req; try exact Hst.
    simpl route. rewrite (cache_set_ok p c key value Hr (all_clear_next _ Hclear)).
    reflexivity.
Qed.

Lemma serve_clear_store c : forall reqs p,
  r p = Some c ->
  all_clear (redis_faults (env p)) ->
  all_clear (redis_faults (env (snd (serve reqs p))))
  /\ forall key,
       redis_data (env (snd (serve reqs p))) !! key =
         match last_post key reqs with
         | Some v => Some v
         | None => redis_data (env p) !! key
         end.
Proof.
  induction reqs as [|req reqs IH]; intros p Hr Hclear; [split; auto|].
  rewrite serve_cons. simpl snd.
  destruct (route_clear_store req p c Hr Hclear) as [Hclear1 Hdata1].
  destruct (route_frame req p) as (_ & Hr1 & _).
  destruct (IH (snd (route req p))) as [Hclear2 Hdata2];
    [congruence|assumption|].
  split; [assumption|]. intros key. rewrite Hdata2. simpl last_post.
  destruct (last_post key reqs); [reflexivity|]. rewrite Hdata1.
  destruct req; try reflexivity.
  destruct (String.eqb_spec key0 key) as [->|Hne].
  - apply lookup_insert_eq.
  - apply lookup_insert_ne. exact Hne.
Qed.

(** X1. Over a store that raises nothing, a get after any history of
    requests answers the value of the latest POST to that key, whatever
    other keys were written and whatever else was requested in between; a
    key no POST wrote is answered from what the store held at the start,
    404 if it held nothing. *)
Theorem cache_get_after_history (p : process) (c : Redis)
    (reqs : list request) (key : string) :
  r p = Some c ->
  all_clear (redis_faults (env p)) ->
  fst (cache_get key (snd (serve reqs p))) =
    match last_post key reqs, redis_data (env p) !! key with
    | Some v, _ | None, Some v =>
        Return (PyDict [("key", PyStr key); ("value", PyStr v)])
    | None, None => Raise (HTTPException 404 ("Key '" +:+ key +:+ "' not found"))
    end.
Proof.
  intros Hr Hclear.
  destruct (serve_clear_store c reqs p Hr Hclear) as [Hclear' Hdata].
  destruct (serve_globals reqs p) as (_ & Hr' & _).
  rewrite (cache_get_replies _ c key) by
    (try congruence; apply all_clear_next; assumption).
  simpl fst. rewrite Hdata.
  destruct (last_post key reqs); [reflexivity|].
  destruct (redis_data (env p) !! key); reflexivity.
Qed.

Lemma cache_get_after_history_witness :
  r sample_process = Some sample_redis
  /\ all_clear (redis_faults (env sample_process))
  /\ fst (cache_get "foo"
            (snd (serve [POST_cache "foo" "one"; POST_cache "bar" "two"; GET_health;
                         POST_cache "foo" "three"; GET_cache "bar"; GET_db]
                    sample_process))) =
       Return (PyDict [("key", PyStr "foo"); ("value", PyStr "three")]).
Proof.
  split; [reflexivity|]. split; [constructor|].
  apply (cache_get_after_history sample_process sample_redis
           [POST_cache "foo" "one"; POST_cache "bar" "two"; GET_health;
            POST_cache "foo" "three"; GET_cache "bar"; GET_db] "foo" eq_refl).
  constructor.
Defined.

(** X2. A history of requests changes the store at most at the keys it
    POSTs: every other key holds after the history what it held before,
    whatever the handles are and whatever errors the servers raised.  In
    particular GET requests, the database probe, the health check and the
    root page never write. *)
Theorem serve_writes_only_posted (reqs : list request) (p : process) (key : string) :
  ~ In key (written reqs) ->
  redis_data (env (snd (serve reqs p))) !! key = redis_data (env p) !! key.
Proof.
  revert p. induction reqs as [|req reqs IH]; intros p Hkey; [reflexivity|].
  rewrite serve_cons. simpl snd.
  rewrite IH by (intros Hin; apply Hkey; destruct req; simpl; auto).
  destruct (route_frame req p) as (_ & _ & _ & Hst & _).
  destruct req; unfold same_store_but in Hst; try (rewrite Hst; reflexivity).
  destruct Hst as [Hst|Hst]; rewrite Hst; [reflexivity|].
  apply lookup_insert_ne. intros ->. apply Hkey. simpl. auto.
Qed.

Lemma serve_writes_only_posted_witness :
  ~ In "foo" (written [POST_cache "bar" "two"; GET_cache "foo"; GET_health; GET_db])
  /\ redis_data (env (snd (serve [POST_cache "bar" "two"; GET_cache "foo";
                                  GET_health; GET_db]
                             (with_store {["foo" := "kept"]} sample_process)))) !! "foo"
     = Some "kept".
Proof.
  assert (H : ~ In "foo" (written [POST_cache "bar" "two"; GET_cache "foo";
                                   GET_health; GET_db])).
  { simpl. intros [H|[]]. discriminate H. }
  split; [exact H|].
  rewrite (serve_writes_only_posted _ (with_store {["foo" := "kept"]} sample_process)
             "foo" H).
  reflexivity.
Defined.

(** X3. The cache handlers and the database probe translate into 503 only
    the error classes their [except] clause names.  Any other error raised
    by the call to the server leaves the handler unchanged; when it is not
    an [HTTPException] the framework answers 500, not 503. *)
Theorem handlers_reraise_other_errors (p : process) (key value : string) (e : exn) :
  (forall c : Redis,
     r p = Some c ->
     next_fault (redis_faults (env p)) = Some e ->
     except_ConnectionError_RedisError e = false ->
     fst (cache_get key p) = Raise e /\ fst (cache_set key value p) = Raise e)
  /\ (forall c : connection,
        pg_conn p = Some c ->
        next_fault (pg_faults (env p)) = Some e ->
        except_OperationalError e = false ->
        fst (db_test p) = Raise e)
  /\ (forall class_name msg, e = Exception class_name msg ->
        status_code_of (@Raise pyval e) = 500).
Proof.
  split; [|split].
  - intros c Hr Hq He.
    rewrite (cache_get_raises p c key e Hr Hq),
      (cache_set_raises p c key value e Hr Hq), He. auto.
  - intros c Hc Hq He. rewrite (db_test_runs p c Hc), Hq, He. reflexivity.
  - intros class_name msg ->. reflexivity.
Qed.

Lemma handlers_reraise_other_errors_witness :
  fst (db_test (with_database (Some sample_connection)
                  [Some (Exception "InterfaceError" "connection already closed")]
                  "" sample_process)) =
    Raise (Exception "InterfaceError" "connection already closed")
  /\ fst (cache_get "foo"
            (with_cache (Some sample_redis) ∅
               [Some (Exception "UnicodeDecodeError" "invalid start byte")]
               sample_process)) =
       Raise (Exception "UnicodeDecodeError" "invalid start byte").
Proof.
  split.
  - destruct (handlers_reraise_other_errors
                (with_database (Some sample_connection)
                   [Some (Exception "InterfaceError" "connection already closed")]
                   "" sample_process) "" ""
                (Exception "InterfaceError" "connection already closed"))
      as (_ & Hdb & _).
    apply (Hdb sample_connection); reflexivity.
  - destruct (handlers_reraise_other_errors
                (with_cache (Some sample_redis) ∅
                   [Some (Exception "UnicodeDecodeError" "invalid start byte")]
                   sample_process) "foo" ""
                (Exception "UnicodeDecodeError" "invalid start byte"))
      as (Hcache & _).
    apply (Hcache sample_redis); reflexivity.
Defined.

(** X4. As long as the client libraries raise only the error classes the
    handlers name (the Redis errors for the store, [OperationalError] for
    the database), every request is answered 200, 404 or 503, never 500.
    Only a get of a key the store does not hold is answered 404, and the
    health check and the root page are always answered 200. *)
Theorem request_status_codes (req : request) (p : process) :
  (forall e, next_fault (redis_faults (env p)) = Some e ->
             except_ConnectionError_RedisError e = true) ->
  (forall e, next_fault (pg_faults (env p)) = Some e ->
             except_OperationalError e = true) ->
  let status := status_code_of (fst (route req p)) in
  (status = 200 \/ status = 404 \/ status = 503)
  /\ (status = 404 ->
      exists key, req = GET_cache key /\ redis_data (env p) !! key = None)
  /\ (req = GET_health \/ req = GET_root -> status = 200).
Proof.
  intros Hredis Hpg. destruct req as [key|key value| | |]; simpl route.
  - destruct (r p) as [c|] eqn:Hr.
    + destruct (next_fault (redis_faults (env p))) as [e|] eqn:Hq.
      * rewrite (cache_get_raises p c key e Hr Hq), (Hredis e eq_refl). simpl.
        repeat split; auto; try discriminate; try (intros [H|H]; discriminate H).
      * rewrite (cache_get_replies p c key Hr Hq). simpl.
        destruct (redis_data (env p) !! key) eqn:Hk; simpl;
          repeat split; auto; try discriminate; eauto;
          try (intros [H|H]; discriminate H).
    + destruct (cache_unavailable p key "" Hr) as [Hg _]. rewrite Hg. simpl.
      repeat split; auto; try discriminate; try (intros [H|H]; discriminate H).
  - destruct (r p) as [c|] eqn:Hr.
    + destruct (next_fault (redis_faults (env p))) as [e|] eqn:Hq.
      * rewrite (cache_set_raises p c key value e Hr Hq), (Hredis e eq_refl). simpl.
        repeat split; auto; try discriminate; try (intros [H|H]; discriminate H).
      * rewrite (cache_set_ok p c key value Hr Hq). simpl.
        repeat split; auto; try discriminate; try (intros [H|H]; discriminate H).
    + destruct (cache_unavailable p key value Hr) as [_ Hs]. rewrite Hs. simpl.
      repeat split; auto; try discriminate; try (intros [H|H]; discriminate H).
  - destruct (pg_conn p) as [c|] eqn:Hc.
    + rewrite (db_test_runs p c Hc).
      destruct (next_fault (pg_faults (env p))) as [e|] eqn:Hq.
      * rewrite (Hpg e eq_refl). simpl.
        repeat split; auto; try discriminate; try (intros [H|H]; discriminate H).
      * simpl. repeat split; auto; try discriminate; try (intros [H|H]; discriminate H).
    + unfold db_test, global, mbind, M_bind. rewrite Hc. simpl.
      repeat split; auto; try discriminate; try (intros [H|H]; discriminate H).
  - rewrite health_check_runs. simpl. repeat split; auto; discriminate.
  - unfold root, global, mbind, M_bind, mret, M_ret. simpl.
    repeat split; auto; discriminate.
Qed.

Lemma request_status_codes_witness :
  status_code_of (fst (route (GET_cache "missing") sample_process)) = 404
  /\ exists key, GET_cache "missing" = GET_cache key
                 /\ redis_data (env sample_process) !! key = None.
Proof.
  destruct (request_status_codes (GET_cache "missing") sample_process)
    as (_ & H404 & _).
  - intros e He. discriminate He.
  - intros e He. discriminate He.
  - split; [reflexivity|]. apply H404. reflexivity.
Defined.

(** X5. A request makes at most one call to each dependency, and none to a
    dependency whose handle is [None] or that its handler does not use: the
    cache handlers never call the database, the probe never calls the store
    and the root page calls nothing.  A call that raised is not made again
    at request time, and a handler never sleeps and never logs. *)
Theorem request_makes_at_most_one_call (req : request) (p : process) :
  exists t : list event,
    trace (env (snd (route req p))) = (trace (env p) ++ t)%list
    /\ (length (filter is_redis_call t) <= 1)%nat
    /\ (length (filter is_pg_call t) <= 1)%nat
    /\ sleeps t = []
    /\ filter is_log t = []
    /\ (r p = None -> filter is_redis_call t = [])
    /\ (pg_conn p = None -> filter is_pg_call t = [])
    /\ match req with
       | GET_cache _ | POST_cache _ _ => filter is_pg_call t = []
       | GET_db => filter is_redis_call t = []
       | GET_health => True
       | GET_root => t = []
       end.
Proof.
  destruct req as [key|key value| | |]; simpl route.
  - destruct (r p) as [c|] eqn:Hr.
    + exists [Get key]. split; [|simpl; repeat split; auto; discriminate].
      destruct (next_fault (redis_faults (env p))) as [e|] eqn:Hq.
      * rewrite (cache_get_raises p c key e Hr Hq). reflexivity.
      * rewrite (cache_get_replies p c key Hr Hq). reflexivity.
    + exists []. destruct (cache_unavailable p key "" Hr) as [Hg _]. rewrite Hg.
      simpl. rewrite app_nil_r. repeat split; auto.
  - destruct (r p) as [c|] eqn:Hr.
    + exists [Set_ key value]. split; [|simpl; repeat split; auto; discriminate].
      destruct (next_fault (redis_faults (env p))) as [e|] eqn:Hq.
      * rewrite (cache_set_raises p c key value e Hr Hq). reflexivity.
      * rewrite (cache_set_ok p c key value Hr Hq). reflexivity.
    + exists []. destruct (cache_unavailable p key value Hr) as [_ Hs]. rewrite Hs.
      simpl. rewrite app_nil_r. repeat split; auto.
  - unfold db_test, global, lift, try_except, cursor_execute,
      pg_command, subscript0, fetchone, raise, mbind, M_bind, mret, M_ret.
    destruct (pg_conn p) as [c|] eqn:Hc; simpl.
    + exists [Execute "SELECT version();"].
      split; [|simpl; repeat split; auto; discriminate].
      destruct (next_fault (pg_faults (env p))) as [e|]; simpl.
      * destruct (except_OperationalError e); reflexivity.
      * reflexivity.
    + exists []. rewrite app_nil_r. simpl. repeat split; auto.
  - exists (health_calls p). rewrite health_check_runs. split; [reflexivity|].
    unfold health_calls.
    destruct (r p); destruct (pg_conn p); simpl; repeat split; auto; discriminate.
  - exists []. unfold root, global, mbind, M_bind, mret, M_ret. simpl.
    rewrite app_nil_r. repeat split; auto.
Qed.

(** X6. The two dependencies do not interfere.  The answer of a cache get
    or set is the same whatever the database handle, the database server's
    state and its errors are; the answer of the database probe is the same
    whatever the cache handle, the store's contents and its errors are. *)
Theorem handlers_are_isolated (p : process) (key value : string) :
  (forall (pc : option connection) (fs : list (option exn)) (version : string),
     fst (cache_get key (with_database pc fs version p)) = fst (cache_get key p)
     /\ fst (cache_set key value (with_database pc fs version p)) =
          fst (cache_set key value p))
  /\ (forall (c : option Redis) (d : gmap string string) (fs : list (option exn)),
        fst (db_test (with_cache c d fs p)) = fst (db_test p)).
Proof.
  split.
  - intros pc fs version. destruct (r p) as [c|] eqn:Hr.
    + destruct (next_fault (redis_faults (env p))) as [e|] eqn:Hq.
      * rewrite (cache_get_raises p c key e Hr Hq),
          (cache_set_raises p c key value e Hr Hq),
          (cache_get_raises (with_database pc fs version p) c key e Hr Hq),
          (cache_set_raises (with_database pc fs version p) c key value e Hr Hq).
        auto.
      * rewrite (cache_get_replies p c key Hr Hq),
          (cache_set_ok p c key value Hr Hq),
          (cache_get_replies (with_database pc fs version p) c key Hr Hq),
          (cache_set_ok (with_database pc fs version p) c key value Hr Hq).
        auto.
    + destruct (cache_unavailable p key value Hr) as [Hg Hs].
      destruct (cache_unavailable (with_database pc fs version p) key value Hr)
        as [Hg' Hs'].
      rewrite Hg, Hs, Hg', Hs'. auto.
  - intros c d fs. destruct (pg_conn p) as [pc|] eqn:Hc.
    + rewrite (db_test_runs p pc Hc), (db_test_runs (with_cache c d fs p) pc Hc).
      reflexivity.
    + unfold db_test, global, mbind, M_bind. simpl. rewrite Hc. reflexivity.
Qed.

(** X7. A handle that start-up left at [None] stays so: after any history
    of requests, and whatever the servers do by then, every get and set
    still raises the 503 "Redis service unavailable" error, the health check
    still reports the cache [unhealthy] and the aggregate [degraded], and
    the root page still reports it [unavailable]; likewise the probe keeps
    raising 503 when the database handle is [None]. *)
Theorem unavailable_is_permanent (p0 : process) (reqs : list request)
    (key value : string) :
  (r p0 = None ->
   fst (cache_get key (snd (serve reqs p0))) =
     Raise (HTTPException 503 "Redis service unavailable")
   /\ fst (cache_set key value (snd (serve reqs p0))) =
        Raise (HTTPException 503 "Redis service unavailable")
   /\ (exists v, fst (health_check (snd (serve reqs p0))) = Return v
         /\ item "redis" v = Some (PyStr "unhealthy")
         /\ item "status" v = Some (PyStr "degraded"))
   /\ (exists v services, fst (root (snd (serve reqs p0))) = Return v
         /\ item "services" v = Some services
         /\ item "redis" services = Some (PyStr "unavailable")))
  /\ (pg_conn p0 = None ->
      fst (db_test (snd (serve reqs p0))) =
        Raise (HTTPException 503 "PostgreSQL service unavailable")
      /\ (exists v, fst (health_check (snd (serve reqs p0))) = Return v
            /\ item "postgresql" v = Some (PyStr "unhealthy")
            /\ item "status" v = Some (PyStr "degraded"))
      /\ (exists v services, fst (root (snd (serve reqs p0))) = Return v
            /\ item "services" v = Some services
            /\ item "postgresql" services = Some (PyStr "unavailable"))).
Proof.
  destruct (serve_globals reqs p0) as (_ & Hr & Hpg).
  split.
  - intros Hnone. rewrite Hnone in Hr.
    destruct (cache_unavailable _ key value Hr) as [Hg Hs].
    rewrite Hg, Hs. split; [reflexivity|]. split; [reflexivity|]. split.
    + rewrite health_check_runs. eexists. split; [reflexivity|].
      unfold redis_live. rewrite Hr. split; reflexivity.
    + unfold root, global, mbind, M_bind, mret, M_ret. rewrite Hr.
      eexists. eexists. simpl. split; [reflexivity|]. split; reflexivity.
  - intros Hnone. rewrite Hnone in Hpg. split.
    + unfold db_test, global, mbind, M_bind. rewrite Hpg. reflexivity.
    + split.
      * rewrite health_check_runs. eexists. split; [reflexivity|].
        unfold pg_live. rewrite Hpg. simpl.
        rewrite andb_false_r. split; reflexivity.
      * unfold root, global, mbind, M_bind, mret, M_ret. rewrite Hpg.
        eexists. eexists. simpl. split; [reflexivity|]. split; reflexivity.
Qed.

Lemma unavailable_is_permanent_witness :
  r cacheless_process = None
  /\ fst (cache_get "foo"
            (snd (serve [POST_cache "foo" "bar"; GET_health; GET_db]
                    cacheless_process))) =
       Raise (HTTPException 503 "Redis service unavailable")
  /\ pg_conn (process_with true false) = None
  /\ fst (db_test (snd (serve [GET_health; GET_db] (process_with true false)))) =
       Raise (HTTPException 503 "PostgreSQL service unavailable").
Proof.
  split; [reflexivity|]. split.
  - destruct (unavailable_is_permanent cacheless_process
                [POST_cache "foo" "bar"; GET_health; GET_db] "foo" "")
      as [Hcache _].
    apply (Hcache eq_refl).
  - split; [reflexivity|].
    destruct (unavailable_is_permanent (process_with true false)
                [GET_health; GET_db] "" "") as [_ Hdb].
    apply (Hdb eq_refl).
Defined.

(** * Further properties of the initialisations *)

Section Ending.
Context {A : Type}.
Variable body : nat -> M world (option (option A)).
Variables (n : nat) (d : Z).

Hypothesis body_pass : forall i w,
  exists t, trace (snd (body i w)) = (trace w ++ t)%list
    /\ attempts t = 1%nat
    /\ match fst (body i w) with
       | Return None => sleeps t = [d] /\ (i < n - 1)%nat
       | Return (Some None) => sleeps t = [] /\ (n - 1 <= i)%nat
       | _ => sleeps t = []
       end.

(** A loop that returns [None] has made every pass. *)
Lemma for_in_none : forall (m a : nat) (w : world),
  (a + m = n)%nat -> (0 < m)%nat ->
  fst (for_in (seq a m) body w) = Return None ->
  exists t, trace (snd (for_in (seq a m) body w)) = (trace w ++ t)%list
    /\ attempts t = m
    /\ sleeps t = replicate (m - 1) d.
Proof.
  induction m as [|m IH]; intros a w Ham Hm; [lia|].
  simpl seq. rewrite for_in_cons.
  destruct (body_pass a w) as (t & Ht & Hat & Hsl).
  destruct (body a w) as [[[[h|]|]|e] w1]; simpl in Ht, Hsl; simpl fst;
    try discriminate.
  - intros _. destruct Hsl as [Hsl Hlast]. assert (m = 0%nat) by lia. subst m.
    exists t. simpl. auto.
  - intros Hnone. destruct Hsl as [Hsl Hlast].
    destruct (IH (S a) w1) as (t2 & Ht2 & Hat2 & Hsl2); [lia|lia|exact Hnone|].
    exists (t ++ t2)%list. rewrite Ht2, Ht, <- app_assoc.
    split; [reflexivity|]. rewrite attempts_app, sleeps_app, Hat, Hsl, Hsl2, Hat2.
    split; [reflexivity|].
    replace (S m - 1)%nat with (S (m - 1)) by lia. reflexivity.
Qed.
End Ending.

Section Outcomes.
Context {S A : Type}.
Variable body : nat -> M S (option (option A)).

(** What holds of every pass holds of the loop: the handle returned, the
    class of an error raised, a property of the state that each pass keeps. *)
Lemma for_in_outcome (h0 : A) (classes : exn -> bool) :
  (forall i s, match fst (body i s) with
               | Return (Some (Some h)) => h = h0
               | Raise e => classes e = false
               | _ => True
               end) ->
  forall items s,
    match fst (for_in items body s) with
    | Return (Some h) => h = h0
    | Raise e => classes e = false
    | Return None => True
    end.
Proof.
  intros Hbody. induction items as [|i items IH]; intros s; [exact I|].
  rewrite for_in_cons. specialize (Hbody i s).
  destruct (body i s) as [[[[h|]|]|e] s1]; simpl in *; auto.
  apply IH.
Qed.

Lemma for_in_keeps (Inv : S -> Prop) :
  (forall i s, Inv s -> Inv (snd (body i s))) ->
  forall items s, Inv s -> Inv (snd (for_in items body s)).
Proof.
  intros Hbody. induction items as [|i items IH]; intros s Hs; [exact Hs|].
  rewrite for_in_cons. specialize (Hbody i s Hs).
  destruct (body i s) as [[[[h|]|]|e] s1]; simpl in *; auto.
Qed.

Lemma for_in_returns (Inv : S -> Prop) :
  (forall i s, Inv s ->
     Inv (snd (body i s)) /\ forall e, fst (body i s) <> Raise e) ->
  forall items s, Inv s -> forall e, fst (for_in items body s) <> Raise e.
Proof.
  intros Hbody. induction items as [|i items IH]; intros s Hs e; [discriminate|].
  rewrite for_in_cons. destruct (Hbody i s Hs) as [Hinv Hno].
  destruct (body i s) as [[[[h|]|]|e1] s1]; simpl in *; try discriminate.
  - apply IH. exact Hinv.
  - exfalso. apply (Hno e1). reflexivity.
Qed.

(** Two runs of the loop from states that each pass cannot tell apart end
    alike. *)
Lemma for_in_alike (R : S -> S -> Prop) :
  (forall i s s', R s s' ->
     fst (body i s) = fst (body i s') /\ R (snd (body i s)) (snd (body i s'))) ->
  forall items s s', R s s' ->
    fst (for_in items body s) = fst (for_in items body s').
Proof.
  intros Hbody. induction items as [|i items IH]; intros s s' Hs; [reflexivity|].
  rewrite !for_in_cons. destruct (Hbody i s s' Hs) as [Hfst Hsnd].
  destruct (body i s) as [o s1], (body i s') as [o' s1']. simpl in *. subst o'.
  destruct o as [[[h|]|]|e]; simpl; auto.
Qed.
End Outcomes.

Lemma only_raises_next classes fs e :
  only_raises classes fs -> next_fault fs = Some e -> classes e = true.
Proof.
  intros H Hq. destruct H as [|[e'|] fs He _]; try discriminate.
  simpl in Hq. congruence.
Qed.

Lemma only_raises_tail classes fs :
  only_raises classes fs -> only_raises classes (tail fs).
Proof. intros H. destruct H; [constructor|assumption]. Qed.

(** One cache attempt, whatever the world: what it returns or raises, and
    what it leaves of the world. *)
Lemma init_redis_attempt_ends cfg n d i w :
  match fst (init_redis_attempt cfg n d i w) with
  | Return (Some (Some h)) => h = redis_client cfg
  | Raise e => except_ConnectionError_RedisError e = false
  | _ => True
  end
  /\ redis_faults (snd (init_redis_attempt cfg n d i w)) = tail (redis_faults w)
  /\ redis_data (snd (init_redis_attempt cfg n d i w)) = redis_data w
  /\ pg_faults (snd (init_redis_attempt cfg n d i w)) = pg_faults w
  /\ pg_version (snd (init_redis_attempt cfg n d i w)) = pg_version w.
Proof.
  rewrite init_redis_attempt_runs. unfold on_caught.
  destruct (next_fault (redis_faults w)) as [e|]; [|simpl; auto].
  destruct (except_ConnectionError_RedisError e) eqn:He; [|simpl; auto].
  destruct (i <? n - 1)%nat; simpl; auto.
Qed.

Lemma init_postgres_attempt_ends cfg n d i w :
  match fst (init_postgres_attempt cfg n d i w) with
  | Return (Some (Some h)) => h = pg_connection cfg
  | Raise e => except_OperationalError e = false
  | _ => True
  end
  /\ (pg_faults (snd (init_postgres_attempt cfg n d i w)) = tail (pg_faults w)
      \/ pg_faults (snd (init_postgres_attempt cfg n d i w)) = tail (tail (pg_faults w)))
  /\ redis_data (snd (init_postgres_attempt cfg n d i w)) = redis_data w
  /\ redis_faults (snd (init_postgres_attempt cfg n d i w)) = redis_faults w
  /\ pg_version (snd (init_postgres_attempt cfg n d i w)) = pg_version w.
Proof.
  rewrite init_postgres_attempt_runs. unfold on_caught.
  destruct (next_fault (pg_faults w)) as [e|];
    [|destruct (next_fault (tail (pg_faults w))) as [e|]];
    try (destruct (except_OperationalError e) eqn:He);
    try (destruct (i <? n - 1)%nat); simpl; auto 10.
Qed.

Lemma init_redis_ending cfg n d i w :
  exists t, trace (snd (init_redis_attempt cfg n d i w)) = (trace w ++ t)%list
    /\ attempts t = 1%nat
    /\ match fst (init_redis_attempt cfg n d i w) with
       | Return None => sleeps t = [d] /\ (i < n - 1)%nat
       | Return (Some None) => sleeps t = [] /\ (n - 1 <= i)%nat
       | _ => sleeps t = []
       end.
Proof.
  rewrite init_redis_attempt_runs. unfold on_caught.
  destruct (next_fault (redis_faults w)) as [e|].
  - destruct (except_ConnectionError_RedisError e).
    + destruct (i <? n - 1)%nat eqn:Hi; rewrite !emit_redis_world;
        eexists; (split; [reflexivity|]); simpl; split; auto; split; auto.
      * apply Nat.ltb_lt in Hi. exact Hi.
      * apply Nat.ltb_ge in Hi. exact Hi.
    + eexists; (split; [reflexivity|]); simpl; auto.
  - eexists; (split; [reflexivity|]); simpl; auto.
Qed.

Lemma init_postgres_ending cfg n d i w :
  exists t, trace (snd (init_postgres_attempt cfg n d i w)) = (trace w ++ t)%list
    /\ attempts t = 1%nat
    /\ match fst (init_postgres_attempt cfg n d i w) with
       | Return None => sleeps t = [d] /\ (i < n - 1)%nat
       | Return (Some None) => sleeps t = [] /\ (n - 1 <= i)%nat
       | _ => sleeps t = []
       end.
Proof.
  rewrite init_postgres_attempt_runs. unfold on_caught.
  destruct (next_fault (pg_faults w)) as [e|];
    [|destruct (next_fault (tail (pg_faults w))) as [e|]];
    try destruct (except_OperationalError e);
    try destruct (i <? n - 1)%nat eqn:Hi; rewrite ?emit_pg_world;
    eexists; (split; [reflexivity|]); simpl; auto;
    split; auto; split; auto;
    first [apply Nat.ltb_lt in Hi | apply Nat.ltb_ge in Hi]; exact Hi.
Qed.

Lemma total_sleep_replicate (k : nat) (d : Z) :
  foldr Z.add 0 (replicate k d) = Z.of_nat k * d.
Proof. induction k as [|k IH]; [reflexivity|]. simpl replicate. simpl foldr. lia. Qed.

(** X8. An initialisation sleeps 18 at most in all, and it returns [None]
    only at the end of the loop: when it does, it has made all 10 attempts
    and slept 9 times 2.  It never gives up early. *)
Theorem init_gives_up_only_at_the_end (cfg : config) (w : world) :
  (exists t, trace (snd (init_redis cfg w)) = (trace w ++ t)%list
     /\ 0 <= total_sleep t <= 18
     /\ (fst (init_redis cfg w) = Return None ->
         attempts t = 10%nat /\ sleeps t = replicate 9 2 /\ total_sleep t = 18))
  /\ (exists t, trace (snd (init_postgres cfg w)) = (trace w ++ t)%list
        /\ 0 <= total_sleep t <= 18
        /\ (fst (init_postgres cfg w) = Return None ->
            attempts t = 10%nat /\ sleeps t = replicate 9 2 /\ total_sleep t = 18)).
Proof.
  split.
  - rewrite init_redis_loop.
    destruct (for_in_counts (init_redis_attempt cfg 10 2) 10 2
                (init_redis_pass cfg 10 2) 10 0 w) as (t & Ht & Hat & Hsl);
      [lia|lia|].
    exists t. split; [exact Ht|]. split.
    + unfold total_sleep. rewrite Hsl, total_sleep_replicate. lia.
    + intros Hnone.
      destruct (for_in_none (init_redis_attempt cfg 10 2) 10 2
                  (init_redis_ending cfg 10 2) 10 0 w) as (t' & Ht' & Hat' & Hsl');
        [lia|lia|exact Hnone|].
      rewrite Ht in Ht'. apply app_inv_head in Ht'. subst t'.
      unfold total_sleep. rewrite Hsl'. auto.
  - rewrite init_postgres_loop.
    destruct (for_in_counts (init_postgres_attempt cfg 10 2) 10 2
                (init_postgres_pass cfg 10 2) 10 0 w) as (t & Ht & Hat & Hsl);
      [lia|lia|].
    exists t. split; [exact Ht|]. split.
    + unfold total_sleep. rewrite Hsl, total_sleep_replicate. lia.
    + intros Hnone.
      destruct (for_in_none (init_postgres_attempt cfg 10 2) 10 2
                  (init_postgres_ending cfg 10 2) 10 0 w) as (t' & Ht' & Hat' & Hsl');
        [lia|lia|exact Hnone|].
      rewrite Ht in Ht'. apply app_inv_head in Ht'. subst t'.
      unfold total_sleep. rewrite Hsl'. auto.
Qed.

Lemma init_gives_up_only_at_the_end_witness :
  fst (init_redis default_config down_world) = Return None
  /\ exists t, trace (snd (init_redis default_config down_world)) =
                 (trace down_world ++ t)%list
               /\ attempts t = 10%nat /\ total_sleep t = 18.
Proof.
  split; [reflexivity|].
  destruct (init_gives_up_only_at_the_end default_config down_world)
    as [(t & Ht & _ & Hnone) _].
  exists t. split; [exact Ht|].
  destruct (Hnone eq_refl) as (Hat & _ & Hsl). auto.
Defined.

(** X9. Whatever the servers do, an initialisation ends in one of three
    ways: it returns the handle built from the configuration (the configured
    host and port; for the cache with decoded responses and both timeouts at
    5, for the database with the configured user, password and database name
    and a connect timeout of 5), it returns [None], or it raises an error of
    a class its [except] clause does not name.  An error of a class the
    clause names never leaves it. *)
Theorem init_ends_three_ways (cfg : config) (w : world) :
  match fst (init_redis cfg w) with
  | Return (Some h) =>
      h = mkRedis (REDIS_HOST cfg) (REDIS_PORT cfg) true 5 5
  | Return None => True
  | Raise e => except_ConnectionError_RedisError e = false
  end
  /\ match fst (init_postgres cfg w) with
     | Return (Some h) =>
         h = mkConnection (POSTGRES_HOST cfg) (POSTGRES_PORT cfg) (POSTGRES_USER cfg)
               (POSTGRES_PASSWORD cfg) (POSTGRES_DB cfg) 5
     | Return None => True
     | Raise e => except_OperationalError e = false
     end.
Proof.
  split.
  - rewrite init_redis_loop.
    apply (for_in_outcome (init_redis_attempt cfg 10 2) (redis_client cfg)
             except_ConnectionError_RedisError).
    intros i s. destruct (init_redis_attempt_ends cfg 10 2 i s) as [H _].
    exact H.
  - rewrite init_postgres_loop.
    apply (for_in_outcome (init_postgres_attempt cfg 10 2) (pg_connection cfg)
             except_OperationalError).
    intros i s. destruct (init_postgres_attempt_ends cfg 10 2 i s) as [H _].
    exact H.
Qed.

Lemma init_redis_frame cfg w :
  redis_data (snd (init_redis cfg w)) = redis_data w
  /\ pg_faults (snd (init_redis cfg w)) = pg_faults w
  /\ pg_version (snd (init_redis cfg w)) = pg_version w.
Proof.
  rewrite init_redis_loop.
  apply (for_in_keeps (init_redis_attempt cfg 10 2)
           (fun s => redis_data s = redis_data w /\ pg_faults s = pg_faults w
                     /\ pg_version s = pg_version w)); [|auto].
  intros i s (H1 & H2 & H3).
  destruct (init_redis_attempt_ends cfg 10 2 i s) as (_ & _ & E1 & E2 & E3).
  rewrite E1, E2, E3. auto.
Qed.

Lemma init_postgres_frame cfg w :
  redis_data (snd (init_postgres cfg w)) = redis_data w
  /\ redis_faults (snd (init_postgres cfg w)) = redis_faults w
  /\ pg_version (snd (init_postgres cfg w)) = pg_version w.
Proof.
  rewrite init_postgres_loop.
  apply (for_in_keeps (init_postgres_attempt cfg 10 2)
           (fun s => redis_data s = redis_data w /\ redis_faults s = redis_faults w
                     /\ pg_version s = pg_version w)); [|auto].
  intros i s (H1 & H2 & H3).
  destruct (init_postgres_attempt_ends cfg 10 2 i s) as (_ & _ & E1 & E2 & E3).
  rewrite E1, E2, E3. auto.
Qed.

Lemma init_redis_returns cfg w :
  only_raises except_ConnectionError_RedisError (redis_faults w) ->
  forall e, fst (init_redis cfg w) <> Raise e.
Proof.
  rewrite init_redis_loop.
  apply (for_in_returns (init_redis_attempt cfg 10 2)
           (fun s => only_raises except_ConnectionError_RedisError (redis_faults s))).
  intros i s Hs. split.
  - destruct (init_redis_attempt_ends cfg 10 2 i s) as (_ & E & _).
    rewrite E. apply only_raises_tail. exact Hs.
  - intros e. rewrite init_redis_attempt_runs. unfold on_caught.
    destruct (next_fault (redis_faults s)) as [e'|] eqn:Hq; [|discriminate].
    rewrite (only_raises_next _ _ _ Hs Hq).
    destruct (i <? 10 - 1)%nat; discriminate.
Qed.

Lemma init_postgres_returns cfg w :
  only_raises except_OperationalError (pg_faults w) ->
  forall e, fst (init_postgres cfg w) <> Raise e.
Proof.
  rewrite init_postgres_loop.
  apply (for_in_returns (init_postgres_attempt cfg 10 2)
           (fun s => only_raises except_OperationalError (pg_faults s))).
  intros i s Hs. split.
  - destruct (init_postgres_attempt_ends cfg 10 2 i s) as (_ & [E|E] & _);
      rewrite E; auto using only_raises_tail.
  - intros e. rewrite init_postgres_attempt_runs. unfold on_caught.
    destruct (next_fault (pg_faults s)) as [e'|] eqn:Hq.
    + rewrite (only_raises_next _ _ _ Hs Hq).
      destruct (i <? 10 - 1)%nat; discriminate.
    + destruct (next_fault (tail (pg_faults s))) as [e'|] eqn:Hq'; [|discriminate].
      rewrite (only_raises_next _ _ _ (only_raises_tail _ _ Hs) Hq').
      destruct (i <? 10 - 1)%nat; discriminate.
Qed.

(** X10. Start-up survives an outage.  If the servers raise only errors of
    the classes the two [except] clauses name, however many and for however
    long, the module finishes loading: it yields a process over the given
    configuration whose handles are each the configured one or [None]. *)
Theorem module_init_survives_outage (cfg : config) (w : world) :
  only_raises except_ConnectionError_RedisError (redis_faults w) ->
  only_raises except_OperationalError (pg_faults w) ->
  exists p0 : process,
    module_init cfg w = Return p0
    /\ conf p0 = cfg
    /\ (r p0 = None \/ r p0 = Some (redis_client cfg))
    /\ (pg_conn p0 = None \/ pg_conn p0 = Some (pg_connection cfg)).
Proof.
  intros Hredis Hpg. unfold module_init.
  pose proof (init_redis_returns cfg w Hredis) as Hr.
  pose proof (for_in_outcome (init_redis_attempt cfg 10 2) (redis_client cfg)
                except_ConnectionError_RedisError
                (fun i s => proj1 (init_redis_attempt_ends cfg 10 2 i s))
                (seq 0 10) w) as Hh.
  destruct (init_redis_frame cfg w) as (_ & Hframe & _).
  rewrite <- init_redis_loop in Hh.
  destruct (init_redis cfg w) as [[r0|e] w1]; [|exfalso; apply (Hr e); reflexivity].
  simpl in Hframe, Hh. rewrite <- Hframe in Hpg.
  pose proof (init_postgres_returns cfg w1 Hpg) as Hp.
  pose proof (for_in_outcome (init_postgres_attempt cfg 10 2) (pg_connection cfg)
                except_OperationalError
                (fun i s => proj1 (init_postgres_attempt_ends cfg 10 2 i s))
                (seq 0 10) w1) as Hc.
  rewrite <- init_postgres_loop in Hc.
  destruct (init_postgres cfg w1) as [[pg0|e] w2]; [|exfalso; apply (Hp e); reflexivity].
  simpl in Hc. eexists. split; [reflexivity|]. simpl. split; [reflexivity|].
  split.
  - destruct r0; [right; congruence|left; reflexivity].
  - destruct pg0; [right; congruence|left; reflexivity].
Qed.

Lemma module_init_survives_outage_witness :
  only_raises except_ConnectionError_RedisError (redis_faults down_world)
  /\ only_raises except_OperationalError (pg_faults down_world)
  /\ exists p0 : process,
       module_init default_config down_world = Return p0
       /\ conf p0 = default_config
       /\ (r p0 = None \/ r p0 = Some (redis_client default_config))
       /\ (pg_conn p0 = None \/ pg_conn p0 = Some (pg_connection default_config)).
Proof.
  assert (H1 : only_raises except_ConnectionError_RedisError (redis_faults down_world))
    by (repeat constructor).
  assert (H2 : only_raises except_OperationalError (pg_faults down_world))
    by (repeat constructor).
  split; [exact H1|]. split; [exact H2|].
  exact (module_init_survives_outage default_config down_world H1 H2).
Defined.

Lemma init_redis_alike cfg : forall w w',
  redis_faults w = redis_faults w' ->
  fst (init_redis cfg w) = fst (init_redis cfg w').
Proof.
  rewrite init_redis_loop.
  apply (for_in_alike (init_redis_attempt cfg 10 2)
           (fun s s' => redis_faults s = redis_faults s')).
  intros i s s' Hs. split.
  - rewrite !init_redis_attempt_runs, Hs. unfold on_caught.
    destruct (next_fault (redis_faults s')) as [e|]; [|reflexivity].
    destruct (except_ConnectionError_RedisError e); [|reflexivity].
    destruct (i <? 10 - 1)%nat; reflexivity.
  - destruct (init_redis_attempt_ends cfg 10 2 i s) as (_ & E & _).
    destruct (init_redis_attempt_ends cfg 10 2 i s') as (_ & E' & _).
    rewrite E, E', Hs. reflexivity.
Qed.

Lemma init_postgres_alike cfg : forall w w',
  pg_faults w = pg_faults w' ->
  fst (init_postgres cfg w) = fst (init_postgres cfg w').
Proof.
  rewrite init_postgres_loop.
  apply (for_in_alike (init_postgres_attempt cfg 10 2)
           (fun s s' => pg_faults s = pg_faults s')).
  intros i s s' Hs.
  rewrite !init_postgres_attempt_runs, Hs. unfold on_caught.
  destruct (next_fault (pg_faults s')) as [e|];
    [|destruct (next_fault (tail (pg_faults s'))) as [e|]];
    try destruct (except_OperationalError e);
    try destruct (i <? 10 - 1)%nat; simpl; auto.
Qed.

(** X11. The two initialisations are independent.  What the cache
    initialisation returns depends on the world only through the store's
    schedule of errors, and it leaves the store's contents and the whole
    database side as they were; the database initialisation likewise depends
    only on the database server's schedule and leaves the cache side alone.
    So the database is initialised after the cache exactly as it would have
    been without it, whether the cache came up or not. *)
Theorem initialisations_are_independent (cfg : config) (w : world) :
  (forall w' : world,
     redis_faults w = redis_faults w' ->
     fst (init_redis cfg w) = fst (init_redis cfg w'))
  /\ (forall w' : world,
        pg_faults w = pg_faults w' ->
        fst (init_postgres cfg w) = fst (init_postgres cfg w'))
  /\ (redis_data (snd (init_redis cfg w)) = redis_data w
      /\ pg_faults (snd (init_redis cfg w)) = pg_faults w
      /\ pg_version (snd (init_redis cfg w)) = pg_version w)
  /\ (redis_data (snd (init_postgres cfg w)) = redis_data w
      /\ redis_faults (snd (init_postgres cfg w)) = redis_faults w
      /\ pg_version (snd (init_postgres cfg w)) = pg_version w)
  /\ fst (init_postgres cfg (snd (init_redis cfg w))) = fst (init_postgres cfg w).
Proof.
  split; [apply init_redis_alike|]. split; [apply init_postgres_alike|].
  split; [apply init_redis_frame|]. split; [apply init_postgres_frame|].
  apply init_postgres_alike. apply init_redis_frame.
Qed.

Lemma initialisations_are_independent_witness :
  fst (init_postgres default_config flaky_world) =
    fst (init_postgres default_config
           (mkWorld {["foo" := "bar"]}
              (replicate 10 (Some (ConnectionError "Connection refused")))
              (pg_faults flaky_world) "" [Ping])).
Proof.
  destruct (initialisations_are_independent default_config flaky_world)
    as (_ & Hpg & _).
  apply Hpg. reflexivity.
Defined.

(** * Start-up and serving together *)

(** X12. When the cache fails all 10 attempts of start-up with errors of the
    named classes, the module still loads if the database initialisation
    returns: the cache handle is [None], the database handle is the one the
    database initialisation gives on its own, and from then on every get and
    set of the process raises the 503 error, whatever the store does after
    those ten calls (there is no reconnection). *)
Theorem cache_down_at_startup (cfg : config) (w : world) (es : list exn) (e : exn)
    (rest : list (option exn)) (pg0 : option connection) :
  Forall (fun e => except_ConnectionError_RedisError e = true) (es ++ [e]) ->
  length es = 9%nat ->
  redis_faults w = (map Some (es ++ [e]) ++ rest)%list ->
  fst (init_postgres cfg w) = Return pg0 ->
  exists p0 : process,
    module_init cfg w = Return p0
    /\ r p0 = None
    /\ pg_conn p0 = pg0
    /\ redis_faults (env p0) = rest
    /\ forall (reqs : list request) (key value : string),
         fst (cache_get key (snd (serve reqs p0))) =
           Raise (HTTPException 503 "Redis service unavailable")
         /\ fst (cache_set key value (snd (serve reqs p0))) =
              Raise (HTTPException 503 "Redis service unavailable").
Proof.
  intros Hes Hlen Hw Hpg. unfold module_init.
  rewrite (init_redis_gives_up cfg w es e rest Hes Hlen Hw).
  rewrite (init_postgres_alike cfg w
             (redis_world rest (redis_retries 10 2 0 es ++ [Ping; redis_gave_up]) w)
             eq_refl) in Hpg.
  pose proof (init_postgres_frame cfg
                (redis_world rest (redis_retries 10 2 0 es ++ [Ping; redis_gave_up]) w))
    as (_ & Hfaults & _).
  destruct (init_postgres cfg
              (redis_world rest (redis_retries 10 2 0 es ++ [Ping; redis_gave_up]) w))
    as [o w2].
  simpl in Hpg, Hfaults. subst o.
  eexists. split; [reflexivity|]. simpl.
  split; [reflexivity|]. split; [reflexivity|]. split; [exact Hfaults|].
  intros reqs key value.
  match goal with |- context [serve reqs ?p] =>
    destruct (serve_globals reqs p) as (_ & Hr & _);
    destruct (cache_unavailable (snd (serve reqs p)) key value Hr) as [Hg Hs]
  end.
  rewrite Hg, Hs. auto.
Qed.

Lemma cache_down_at_startup_witness :
  exists p0 : process,
    module_init default_config
      (mkWorld ∅ (replicate 10 (Some (ConnectionError "Connection refused")) ++ [None])
         [] "PostgreSQL 16.2" []) = Return p0
    /\ r p0 = None
    /\ pg_conn p0 = Some sample_connection
    /\ fst (cache_get "foo" (snd (serve [POST_cache "foo" "bar"] p0))) =
         Raise (HTTPException 503 "Redis service unavailable").
Proof.
  destruct (cache_down_at_startup default_config
              (mkWorld ∅ (replicate 10 (Some (ConnectionError "Connection refused"))
                          ++ [None])
                 [] "PostgreSQL 16.2" [])
              (replicate 9 (ConnectionError "Connection refused"))
              (ConnectionError "Connection refused") [None]
              (Some sample_connection))
    as (p0 & Hinit & Hr & Hpg & _ & Hserve).
  - repeat constructor.
  - reflexivity.
  - reflexivity.
  - reflexivity.
  - exists p0. split; [exact Hinit|]. split; [exact Hr|]. split; [exact Hpg|].
    apply (Hserve [POST_cache "foo" "bar"] "foo" "").
Defined.

(** X13. When both servers answer from the first call, start-up makes one
    attempt per dependency, cache first, and never sleeps: the trace is the
    ping and its success line, then the connect, the trivial query and
    their success line; both handles are the configured ones. *)
Theorem startup_with_servers_up (cfg : config) (w : world) :
  next_fault (redis_faults w) = None ->
  quiet 2 (pg_faults w) = true ->
  exists p0 : process,
    module_init cfg w = Return p0
    /\ conf p0 = cfg
    /\ r p0 = Some (redis_client cfg)
    /\ pg_conn p0 = Some (pg_connection cfg)
    /\ trace (env p0) =
         (trace w ++ [Ping; redis_connected cfg; pg_connect_call cfg;
                      Execute "SELECT 1;"; pg_connected cfg])%list
    /\ redis_data (env p0) = redis_data w.
Proof.
  intros Hredis Hpg. unfold module_init.
  rewrite (init_redis_succeeds cfg w [] (redis_faults w));
    [|constructor|simpl; lia|reflexivity|exact Hredis].
  rewrite (init_postgres_succeeds cfg _ [] (pg_faults w));
    [|constructor|simpl; lia|reflexivity|exact Hpg].
  eexists. split; [reflexivity|]. simpl.
  rewrite <- app_assoc. repeat split; reflexivity.
Qed.

Lemma startup_with_servers_up_witness :
  exists p0 : process,
    module_init default_config calm_world = Return p0
    /\ r p0 = Some sample_redis
    /\ pg_conn p0 = Some sample_connection
    /\ sleeps (trace (env p0)) = [].
Proof.
  destruct (startup_with_servers_up default_config calm_world eq_refl eq_refl)
    as (p0 & Hinit & _ & Hr & Hpg & Htrace & _).
  exists p0. split; [exact Hinit|]. split; [exact Hr|]. split; [exact Hpg|].
  rewrite Htrace. reflexivity.
Defined.
